(** * Recent-changes README updater: a shallow embedding

    The repository holds two scripts,
    [.github/scripts/update_readmes.py] and
    [.github/scripts/update_jekyll_readmes.py].  Both aggregate the commit
    history into a map from path to last change, scope that map to the
    directory of each README, render a markdown fragment and splice it
    between two marker comments.

    Python [str] values are modelled as lists of characters.  Characters
    are [ascii] values, i.e. the model covers text over code points 0..255,
    with case mapping done on the ASCII letters only.  Python dictionaries
    are association lists in insertion order with unique keys. *)

From Stdlib Require Import Ascii String Bool Arith PeanoNat Lia List.
From Stdlib Require Import DecimalString Sorting.Sorted Sorting.Permutation.
Import ListNotations.

Set Implicit Arguments.
Local Open Scope list_scope.

(** ** Strings *)

Definition str := list ascii.

(** A string literal of the source. *)
Definition lit (s : string) : str := list_ascii_of_string s.

Fixpoint str_eqb (a b : str) : bool :=
  match a, b with
  | [], [] => true
  | c :: a', d :: b' => Ascii.eqb c d && str_eqb a' b'
  | _, _ => false
  end.

(** [s.startswith(p)] *)
Fixpoint starts_with (s p : str) {struct p} : bool :=
  match p with
  | [] => true
  | c :: p' =>
      match s with
      | [] => false
      | d :: s' => Ascii.eqb c d && starts_with s' p'
      end
  end.

(** [s.endswith(p)] *)
Definition ends_with (s p : str) : bool :=
  starts_with (rev s) (rev p).

(** [s.find(sub)], with [None] for -1. *)
Fixpoint find (sub s : str) : option nat :=
  if starts_with s sub then Some 0
  else match s with
       | [] => None
       | _ :: t => option_map S (find sub t)
       end.

(** [sub in s] *)
Definition contains (sub s : str) : bool :=
  match find sub s with Some _ => true | None => false end.

(** [s.replace(old, new)] for a non-empty [old] (every call site passes a
    non-empty literal): occurrences are replaced from left to right and do
    not overlap.  [skip] counts the characters of the occurrence that is
    being replaced and are still to be dropped. *)
Fixpoint replace_aux (old new : str) (skip : nat) (s : str) : str :=
  match s with
  | [] => []
  | c :: t =>
      match skip with
      | S k => replace_aux old new k t
      | O =>
          if starts_with s old
          then new ++ replace_aux old new (length old - 1) t
          else c :: replace_aux old new 0 t
      end
  end.

Definition replace (old new s : str) : str := replace_aux old new 0 s.

(** [s.split('\n')[0]] *)
Fixpoint first_line (s : str) : str :=
  match s with
  | [] => []
  | c :: t => if Ascii.eqb c "010"%char then [] else c :: first_line t
  end.

Definition is_upper (c : ascii) : bool :=
  (65 <=? nat_of_ascii c) && (nat_of_ascii c <=? 90).

Definition is_lower (c : ascii) : bool :=
  (97 <=? nat_of_ascii c) && (nat_of_ascii c <=? 122).

Definition is_digit (c : ascii) : bool :=
  (48 <=? nat_of_ascii c) && (nat_of_ascii c <=? 57).

Definition lower_char (c : ascii) : ascii :=
  if is_upper c then ascii_of_nat (nat_of_ascii c + 32) else c.

Definition upper_char (c : ascii) : ascii :=
  if is_lower c then ascii_of_nat (nat_of_ascii c - 32) else c.

(** [s.lower()] *)
Definition lower (s : str) : str := map lower_char s.

(** [s.capitalize()], for ASCII text: the first character in upper case,
    the others in lower case.  The statements below use it on ASCII names
    only. *)
Definition capitalize (s : str) : str :=
  match s with
  | [] => []
  | c :: t => upper_char c :: lower t
  end.

(** Whitespace as [str.strip()] sees it, on code points below 256. *)
Definition is_space (c : ascii) : bool :=
  let n := nat_of_ascii c in
  ((9 <=? n) && (n <=? 13)) || ((28 <=? n) && (n <=? 32))
  || (n =? 133) || (n =? 160).

Fixpoint drop_while (f : ascii -> bool) (s : str) : str :=
  match s with
  | [] => []
  | c :: t => if f c then drop_while f t else s
  end.

(** [s.strip()] *)
Definition strip (s : str) : str :=
  rev (drop_while is_space (rev (drop_while is_space s))).

(** [sep.join(parts)] *)
Fixpoint join (sep : str) (parts : list str) : str :=
  match parts with
  | [] => []
  | [p] => p
  | p :: rest => p ++ sep ++ join sep rest
  end.

(** [s.split('/')] *)
Fixpoint split_sep (s : str) : list str :=
  match s with
  | [] => [[]]
  | c :: t =>
      if Ascii.eqb c "/"%char then [] :: split_sep t
      else match split_sep t with
           | h :: r => (c :: h) :: r
           | [] => [[c]]
           end
  end.

(** Decimal numeral of a natural number, and zero padding to a width. *)
Definition nat_str (n : nat) : str :=
  lit (NilZero.string_of_uint (Nat.to_uint n)).

Definition zpad (w : nat) (s : str) : str :=
  repeat "0"%char (w - length s) ++ s.

(** ** [os.path] (posixpath) *)

Definition is_sep (c : ascii) : bool := Ascii.eqb c "/"%char.

(** [os.path.basename(p)]: what follows the last separator. *)
Fixpoint basename (p : str) : str :=
  match p with
  | [] => []
  | c :: t =>
      if existsb is_sep t then basename t
      else if is_sep c then t else p
  end.

(** [os.path.dirname(p)]: the part up to the last separator, with trailing
    separators removed unless it consists of separators only. *)
Definition dirname (p : str) : str :=
  let head := firstn (length p - length (basename p)) p in
  if forallb is_sep head then head
  else rev (drop_while is_sep (rev head)).

(** The suffix of [s] that starts at its last dot. *)
Fixpoint from_last_dot (s : str) : option str :=
  match s with
  | [] => None
  | c :: t =>
      match from_last_dot t with
      | Some e => Some e
      | None => if Ascii.eqb c "."%char then Some s else None
      end
  end.

(** [os.path.splitext(p)[1]]: the extension of the last component; leading
    dots of the component do not start an extension. *)
Definition splitext_ext (p : str) : str :=
  let b := basename p in
  match from_last_dot b with
  | None => []
  | Some e =>
      let stem := firstn (length b - length e) b in
      if existsb (fun c => negb (Ascii.eqb c "."%char)) stem then e else []
  end.

(** One step of [os.path.normpath] on an absolute path, the components
    collected so far kept in reverse. *)
Definition norm_step (st : list str) (comp : str) : list str :=
  if str_eqb comp [] || str_eqb comp (lit ".") then st
  else if str_eqb comp (lit "..") then tl st
  else comp :: st.

(** The non-empty components of [os.path.abspath(p)], for the working
    directory [cwd] (an absolute path). *)
Definition abs_comps (cwd p : str) : list str :=
  let comps :=
    if starts_with p (lit "/") then split_sep p
    else split_sep cwd ++ split_sep p in
  rev (fold_left norm_step comps []).

Fixpoint common_len (a b : list str) : nat :=
  match a, b with
  | x :: a', y :: b' => if str_eqb x y then S (common_len a' b') else 0
  | _, _ => 0
  end.

(** [os.path.relpath(path, start)].  The [ValueError] for an empty [path]
    is left out: both scripts call it on a path that has a non-empty
    directory part. *)
Definition relpath (cwd path start : str) : str :=
  let start_list := abs_comps cwd start in
  let path_list := abs_comps cwd path in
  let i := common_len start_list path_list in
  let rel_list :=
    repeat (lit "..") (length start_list - i) ++ skipn i path_list in
  match rel_list with
  | [] => lit "."
  | _ => join (lit "/") rel_list
  end.


(** [os.path.join(a, b)] *)
Definition path_join (a b : str) : str :=
  if starts_with b (lit "/") then b
  else if str_eqb a [] || ends_with a (lit "/") then a ++ b
  else a ++ lit "/" ++ b.

(** One step of [os.path.normpath], the components collected so far kept
    in reverse; [rooted] says whether the path starts with a slash. *)
Definition normpath_step (rooted : bool) (st : list str) (comp : str)
  : list str :=
  if str_eqb comp [] || str_eqb comp (lit ".") then st
  else if negb (str_eqb comp (lit ".."))
          || (negb rooted && match st with [] => true | _ => false end)
          || match st with
             | last_comp :: _ => str_eqb last_comp (lit "..")
             | [] => false
             end
  then comp :: st
  else tl st.

(** [os.path.normpath(path)] *)
Definition normpath (path : str) : str :=
  match path with
  | [] => lit "."
  | _ =>
      let initial_slashes :=
        if starts_with path (lit "/") then
          if starts_with path (lit "//") && negb (starts_with path (lit "///"))
          then 2 else 1
        else 0 in
      let comps :=
        rev (fold_left (normpath_step (0 <? initial_slashes))
               (split_sep path) []) in
      match repeat "/"%char initial_slashes ++ join (lit "/") comps with
      | [] => lit "."
      | normed => normed
      end
  end.

(** ** Timestamps

    A commit's author date and the wall-clock time of a run are
    [datetime] values; Python compares them field by field.  The API gives
    author dates to the second, and the time of the run is only ever
    formatted to the second, so microseconds are left out.  [%Y] is
    rendered as the plain decimal year, as on Linux. *)

Record datetime := mk_datetime {
  year : nat; month : nat; day : nat;
  hour : nat; minute : nat; second : nat
}.

Definition dt_fields (d : datetime) : list nat :=
  [year d; month d; day d; hour d; minute d; second d].

Fixpoint lex_compare (a b : list nat) : comparison :=
  match a, b with
  | [], [] => Eq
  | [], _ :: _ => Lt
  | _ :: _, [] => Gt
  | x :: a', y :: b' =>
      match Nat.compare x y with
      | Eq => lex_compare a' b'
      | c => c
      end
  end.

Definition dt_compare (a b : datetime) : comparison :=
  lex_compare (dt_fields a) (dt_fields b).

(** [a > b] on timestamps. *)
Definition dt_gtb (a b : datetime) : bool :=
  match dt_compare a b with Gt => true | _ => false end.

(** [a >= b] on timestamps. *)
Definition dt_geb (a b : datetime) : bool := negb (dt_gtb b a).

(** [d.strftime("%Y-%m-%d")] *)
Definition date_str (d : datetime) : str :=
  nat_str (year d) ++ lit "-" ++ zpad 2 (nat_str (month d)) ++ lit "-"
  ++ zpad 2 (nat_str (day d)).

(** [d.strftime("%Y-%m-%d %H:%M:%S")] *)
Definition datetime_str (d : datetime) : str :=
  date_str d ++ lit " " ++ zpad 2 (nat_str (hour d)) ++ lit ":"
  ++ zpad 2 (nat_str (minute d)) ++ lit ":" ++ zpad 2 (nat_str (second d)).

(** ** Dictionaries in insertion order *)

Section Dict.
Variable V : Type.

Definition dict := list (str * V).

(** [m.get(k)] *)
Fixpoint dict_get (k : str) (m : dict) : option V :=
  match m with
  | [] => None
  | (k', v) :: r => if str_eqb k' k then Some v else dict_get k r
  end.

(** [m[k] = v]: an existing key keeps its place, a new one goes last. *)
Fixpoint dict_set (k : str) (v : V) (m : dict) : dict :=
  match m with
  | [] => [(k, v)]
  | (k', v') :: r =>
      if str_eqb k' k then (k', v) :: r else (k', v') :: dict_set k v r
  end.

Definition keys (m : dict) : list str := map fst m.
End Dict.

(** ** Data model *)

(** The value stored per path in [file_updates] (the spec's ChangeRecord). *)
Record info := mk_info {
  date : datetime;
  commit_message : str;
  commit_url : str;
  author : str
}.

(** What the commit list of the API gives per commit. *)
Record commit := mk_commit {
  commit_date : datetime;
  message : str;
  html_url : str;
  author_name : str;
  files : list str
}.

(** ** Exclusion filter

    Every entry of [EXCLUDE_PATTERNS] is of one of two shapes, and
    [re.match] anchors at the start of the path: [^lit.*] holds of every
    path that starts with [lit]; [^lit$] holds of [lit] and of [lit]
    followed by one newline. *)

Inductive pattern :=
| Prefix (s : str)
| Exact (s : str).

Definition pattern_match (pat : pattern) (path : str) : bool :=
  match pat with
  | Prefix s => starts_with path s
  | Exact s => str_eqb path s || str_eqb path (s ++ ["010"%char])
  end.

Definition should_exclude (patterns : list pattern) (path : str) : bool :=
  existsb (fun pat => pattern_match pat path) patterns.

(** ** Change aggregator, [get_repo_changes] *)

Definition record_of (c : commit) : info :=
  {| date := commit_date c;
     commit_message := first_line (message c);
     commit_url := html_url c;
     author := author_name c |}.

Section Aggregator.
Variable EXCLUDE_PATTERNS : list pattern.

(** The body of the inner loop, for one file of commit [c]. *)
Definition track (c : commit) (file_updates : dict info) (file_path : str)
  : dict info :=
  if should_exclude EXCLUDE_PATTERNS file_path then file_updates
  else
    match dict_get file_path file_updates with
    | None => dict_set file_path (record_of c) file_updates
    | Some old =>
        if dt_gtb (commit_date c) (date old)
        then dict_set file_path (record_of c) file_updates
        else file_updates
    end.

(** [commits] is what [repo.get_commits] returns, newest first. *)
Definition get_repo_changes (commits : list commit) : dict info :=
  fold_left (fun file_updates c => fold_left (track c) (files c) file_updates)
            (firstn 100 commits) [].
End Aggregator.

(** ** Directory scoper, [get_directory_changes] (the same in both scripts) *)

Definition NUM_FILES : nat := 10.

(** [sorted(..., key=date, reverse=True)]: Python's sort is stable, also
    with [reverse=True], so entries of equal date keep their dictionary
    order. *)
Fixpoint insert_desc (x : str * info) (l : list (str * info))
  : list (str * info) :=
  match l with
  | [] => [x]
  | y :: r =>
      if dt_gtb (date (snd y)) (date (snd x))
      then y :: insert_desc x r
      else x :: l
  end.

Definition sorted_desc (l : list (str * info)) : list (str * info) :=
  fold_right insert_desc [] l.

Definition directory_prefix (directory : str) : str :=
  let directory_path := dirname directory in
  if str_eqb directory_path [] then [] else directory_path ++ lit "/".

(** The body of the filtering loop. *)
Definition scope_step (directory : str) (dir_files : dict info)
  (e : str * info) : dict info :=
  if starts_with (fst e) (directory_prefix directory) then
    if str_eqb (fst e) directory then dir_files
    else dict_set (fst e) (snd e) dir_files
  else dir_files.

Definition get_directory_changes (directory : str)
  (all_file_updates : dict info) : list (str * info) :=
  let dir_files := fold_left (scope_step directory) all_file_updates [] in
  firstn NUM_FILES (sorted_desc dir_files).

(** ** Exceptions and the file system

    A run either finishes or raises.  [FileNotFoundError] and
    [FileExistsError] are the Python exceptions of that name; [OSError]
    stands for every other [OSError] ([IsADirectoryError],
    [NotADirectoryError], [PermissionError]); [ReError] is [re.error].

    The file system holds the files and the directories of the checkout.
    A path is compared as written, relative paths being relative to the
    working directory, so the model is exact for paths in normal form (no
    empty, [.] or [..] component, no trailing separator): the paths of
    File Discovery are normalised by [os.path.normpath], the paths of the
    change map are the repository-relative names of the GitHub API.  A
    file is a text, or something that cannot be opened (no permission).
    Names have no length limit. *)

Inductive exn :=
| FileNotFoundError
| FileExistsError
| OSError
| ReError.

Inductive result (A : Type) :=
| Ok (a : A)
| Raise (e : exn).

Arguments Ok {A} a.
Arguments Raise {A} e.

Definition bind {A B : Type} (r : result A) (k : A -> result B) : result B :=
  match r with
  | Ok a => k a
  | Raise e => Raise e
  end.

Notation "x <- r ;; k" := (bind r (fun x => k))
  (at level 61, r at next level, right associativity).

Inductive node :=
| File (content : str)
| Faulty.

Record filesystem := mk_fs {
  file_map : dict node;
  dirs : list str
}.

(** A file system is read as its map of files where a map is expected. *)
Coercion file_map : filesystem >-> dict.

(** [os.path.isdir(path)]: the working directory and the root always
    exist. *)
Definition isdir (fs : filesystem) (path : str) : bool :=
  str_eqb path (lit ".")
  || (negb (str_eqb path []) && forallb is_sep path)
  || existsb (str_eqb path) (dirs fs).

(** [os.path.exists(path)] *)
Definition path_exists (fs : filesystem) (path : str) : bool :=
  isdir fs path
  || match dict_get path fs with Some _ => true | None => false end.

(** [os.path.isfile(path)], for a file of any kind: what is listed as a
    directory is a directory. *)
Definition is_file (fs : filesystem) (path : str) : bool :=
  negb (isdir fs path)
  && match dict_get path fs with Some _ => true | None => false end.

(** The path leads through a file: a leading part of it that is followed
    by a separator is a file, which [open] and [mkdir] answer with
    [NotADirectoryError]. *)
Definition through_file (fs : filesystem) (path : str) : bool :=
  existsb
    (fun k => starts_with (skipn k path) (lit "/") && is_file fs (firstn k path))
    (seq 1 (length path)).

(** The directory in which [path] is looked up exists. *)
Definition parent_is_dir (fs : filesystem) (path : str) : bool :=
  str_eqb (dirname path) [] || isdir fs (dirname path).

(** What reading in text mode does to line ends: [\r\n] and [\r] become
    [\n]. *)
Fixpoint universal_newlines (s : str) : str :=
  match s with
  | [] => []
  | c :: t =>
      if Ascii.eqb c "013"%char then
        match t with
        | d :: t' =>
            if Ascii.eqb d "010"%char
            then "010"%char :: universal_newlines t'
            else "010"%char :: universal_newlines t
        | [] => ["010"%char]
        end
      else c :: universal_newlines t
  end.

(** [open(path, 'r', encoding='utf-8').read()] *)
Definition read_file (fs : filesystem) (path : str) : result str :=
  if str_eqb path [] then Raise FileNotFoundError
  else if isdir fs path then Raise OSError
  else
    match dict_get path fs with
    | Some (File content) => Ok (universal_newlines content)
    | Some Faulty => Raise OSError
    | None =>
        if through_file fs path then Raise OSError
        else Raise FileNotFoundError
    end.

Definition set_file (fs : filesystem) (path content : str) : filesystem :=
  {| file_map := dict_set path (File content) fs; dirs := dirs fs |}.

(** [open(path, 'w', encoding='utf-8').write(content)]: a file that does
    not exist is made, which needs its directory.  On the runner [\n] is
    written as it is. *)
Definition write_file (fs : filesystem) (path content : str)
  : result filesystem :=
  if str_eqb path [] then Raise FileNotFoundError
  else if isdir fs path then Raise OSError
  else
    match dict_get path fs with
    | Some (File _) => Ok (set_file fs path content)
    | Some Faulty => Raise OSError
    | None =>
        if through_file fs path then Raise OSError
        else if parent_is_dir fs path then Ok (set_file fs path content)
        else Raise FileNotFoundError
    end.

Definition add_dir (fs : filesystem) (name : str) : filesystem :=
  {| file_map := file_map fs; dirs := name :: dirs fs |}.

(** [os.mkdir(name)] *)
Definition mkdir (fs : filesystem) (name : str) : result filesystem :=
  if str_eqb name [] then Raise FileNotFoundError
  else if path_exists fs name then Raise FileExistsError
  else if through_file fs name then Raise OSError
  else if parent_is_dir fs name then Ok (add_dir fs name)
  else Raise FileNotFoundError.

(** The last step of [os.makedirs(name, exist_ok=True)]: a failure of
    [mkdir] counts only when [name] is no directory. *)
Definition mkdir_exist_ok (fs : filesystem) (name : str)
  : result filesystem :=
  match mkdir fs name with
  | Ok fs' => Ok fs'
  | Raise e => if isdir fs name then Ok fs else Raise e
  end.

(** The leading part and the last component that [os.makedirs] works
    with: [os.path.split(name)], taken once more on the leading part when
    [name] ends in a separator.  [os.path.split] gives [dirname] and
    [basename]. *)
Definition makedirs_split (name : str) : str * str :=
  if str_eqb (basename name) []
  then (dirname (dirname name), basename (dirname name))
  else (dirname name, basename name).

(** [os.makedirs(name, exist_ok=True)], as in the standard library: the
    leading part is made first when it does not exist, then [name]
    itself.  The handler for [FileExistsError] is the one of the source;
    the recursive call is made where nothing exists, so it is never
    entered.  The recursion goes to a shorter name each time, so [fuel] as
    long as the name is enough. *)
Fixpoint makedirs_aux (fuel : nat) (fs : filesystem) (name : str)
  : result filesystem :=
  let head := fst (makedirs_split name) in
  let tail := snd (makedirs_split name) in
  if negb (str_eqb head []) && negb (str_eqb tail [])
     && negb (path_exists fs head)
  then
    match fuel with
    | O => Raise OSError
    | S fuel' =>
        match makedirs_aux fuel' fs head with
        | Ok fs1 =>
            if str_eqb tail (lit ".") then Ok fs1 else mkdir_exist_ok fs1 name
        | Raise FileExistsError =>
            if str_eqb tail (lit ".") then Ok fs else mkdir_exist_ok fs name
        | Raise e => Raise e
        end
    end
  else mkdir_exist_ok fs name.

Definition makedirs (fs : filesystem) (name : str) : result filesystem :=
  makedirs_aux (length name) fs name.

(** ** [re.sub] with a replacement string

    The pattern of both scripts is the start marker, [.*?] under [DOTALL],
    the end marker.  It has no group.  [re.sub] first compiles the
    replacement string as a template, whether or not the pattern matches
    anywhere: a backslash starts an escape, and an escape that is not known
    raises.  Group names are read as in Python 3.12 and later (ASCII decimal
    numerals only); [re.error] and the [IndexError] of an unknown group name
    are both [ReError]. *)

Definition nl : str := ["010"%char].

Definition START_MARKER : str := lit "<!-- RECENT_CHANGES_START -->".
Definition END_MARKER : str := lit "<!-- RECENT_CHANGES_END -->".

Inductive titem :=
| TLit (c : ascii)
| TWhole.

Definition is_octal (c : ascii) : bool :=
  (48 <=? nat_of_ascii c) && (nat_of_ascii c <=? 55).

Definition digit_val (c : ascii) : nat := nat_of_ascii c - 48.

Definition is_ascii_letter (c : ascii) : bool := is_upper c || is_lower c.

Definition backslash : ascii := "\"%char.

(** The table [ESCAPES] of the template parser. *)
Definition escape_char (c : ascii) : option ascii :=
  if Ascii.eqb c "a" then Some "007"%char
  else if Ascii.eqb c "b" then Some "008"%char
  else if Ascii.eqb c "f" then Some "012"%char
  else if Ascii.eqb c "n" then Some "010"%char
  else if Ascii.eqb c "r" then Some "013"%char
  else if Ascii.eqb c "t" then Some "009"%char
  else if Ascii.eqb c "v" then Some "011"%char
  else if Ascii.eqb c backslash then Some backslash
  else None.

(** The group name up to [>], and what follows it. *)
Fixpoint until_gt (s : str) : option (str * str) :=
  match s with
  | [] => None
  | c :: t =>
      if Ascii.eqb c ">" then Some ([], t)
      else match until_gt t with
           | Some (name, rest) => Some (c :: name, rest)
           | None => None
           end
  end.

Definition is_zero_numeral (name : str) : bool :=
  negb (str_eqb name []) && forallb (fun c => Ascii.eqb c "0") name.

Definition tcons (i : titem) (r : option (list titem)) : option (list titem) :=
  option_map (cons i) r.

(** [parse_template]; [None] when it raises.  Every recursive call is on a
    proper suffix, so [S (length s)] is enough fuel. *)
Fixpoint parse_template (fuel : nat) (s : str) : option (list titem) :=
  match fuel with
  | O => None
  | S fuel' =>
      let parse := parse_template fuel' in
      match s with
      | [] => Some []
      | c0 :: t0 =>
          if negb (Ascii.eqb c0 backslash) then tcons (TLit c0) (parse t0)
          else
            match t0 with
            | [] => None
            | c :: t =>
                if Ascii.eqb c "g" then
                  match t with
                  | lt :: t' =>
                      if Ascii.eqb lt "<" then
                        match until_gt t' with
                        | Some (name, rest) =>
                            if is_zero_numeral name
                            then tcons TWhole (parse rest)
                            else None
                        | None => None
                        end
                      else None
                  | [] => None
                  end
                else if Ascii.eqb c "0" then
                  match t with
                  | d1 :: t1 =>
                      if is_octal d1 then
                        match t1 with
                        | d2 :: t2 =>
                            if is_octal d2
                            then tcons (TLit (ascii_of_nat
                                   (digit_val d1 * 8 + digit_val d2)))
                                   (parse t2)
                            else tcons (TLit (ascii_of_nat (digit_val d1)))
                                   (parse t1)
                        | [] => tcons (TLit (ascii_of_nat (digit_val d1)))
                                  (parse t1)
                        end
                      else tcons (TLit zero) (parse t)
                  | [] => tcons (TLit zero) (parse t)
                  end
                else if is_digit c then
                  match t with
                  | d1 :: d2 :: t2 =>
                      if is_octal c && is_octal d1 && is_octal d2 then
                        let v := digit_val c * 64 + digit_val d1 * 8
                                 + digit_val d2 in
                        if 255 <? v then None
                        else tcons (TLit (ascii_of_nat v)) (parse t2)
                      else None
                  | _ => None
                  end
                else
                  match escape_char c with
                  | Some e => tcons (TLit e) (parse t)
                  | None =>
                      if is_ascii_letter c then None
                      else tcons (TLit backslash) (tcons (TLit c) (parse t))
                  end
            end
      end
  end.

(** The replacement text for one match. *)
Definition expand (tpl : list titem) (matched : str) : str :=
  flat_map (fun i => match i with TLit c => [c] | TWhole => matched end) tpl.

(** The length of the match of the pattern at the head of [s]: the start
    marker, then as little as possible up to the next end marker. *)
Definition match_len (s : str) : option nat :=
  if starts_with s START_MARKER then
    match find END_MARKER (skipn (length START_MARKER) s) with
    | Some j => Some (length START_MARKER + j + length END_MARKER)
    | None => None
    end
  else None.

(** The scan of [re.sub]: leftmost matches, not overlapping; [skip] counts
    the characters of the current match still to be dropped. *)
Fixpoint sub_aux (tpl : list titem) (skip : nat) (s : str) : str :=
  match s with
  | [] => []
  | c :: t =>
      match skip with
      | S k => sub_aux tpl k t
      | O =>
          match match_len s with
          | Some n => expand tpl (firstn n s) ++ sub_aux tpl (n - 1) t
          | None => c :: sub_aux tpl 0 t
          end
      end
  end.

(** [re.sub(pattern, repl, content, flags=re.DOTALL)] *)
Definition re_sub (repl content : str) : result str :=
  match parse_template (S (length repl)) repl with
  | None => Raise ReError
  | Some tpl => Ok (sub_aux tpl 0 content)
  end.

(** ** Splicer: the replace-or-append step, the same in both scripts *)

Definition splice (content recent_changes_content : str) : result str :=
  if contains START_MARKER content && contains END_MARKER content
  then re_sub recent_changes_content content
  else Ok (content ++ nl ++ nl ++ recent_changes_content).

(** ** Renderer: what both scripts share *)

Definition truncate_msg (commit_msg : str) : str :=
  if 60 <? length commit_msg
  then firstn 57 commit_msg ++ lit "..."
  else commit_msg.

(** One table row, for a file column already decided. *)
Definition row (file_name file_link : str) (i : info) : str :=
  lit "| [" ++ file_name ++ lit "](" ++ file_link ++ lit ") | "
  ++ date_str (date i) ++ lit " | " ++ author i ++ lit " | ["
  ++ truncate_msg (commit_message i) ++ lit "](" ++ commit_url i
  ++ lit ") |" ++ nl.

Definition table_head : str :=
  lit "| File | Last Updated | Author | Commit Message |" ++ nl
  ++ lit "| ---- | ------------ | ------ | -------------- |" ++ nl.

(** [recent_changes_content], given the rows of the table. *)
Definition fragment (rows : list str) (now : datetime) : str :=
  START_MARKER ++ nl
  ++ lit "## Recently Updated Files" ++ nl ++ nl
  ++ lit "*Last updated: " ++ datetime_str now ++ lit "*" ++ nl ++ nl
  ++ match rows with
     | [] => lit "*No recent changes found in this directory*" ++ nl
     | _ => table_head ++ concat rows
     end
  ++ nl ++ END_MARKER.

(** [x or default] on strings. *)
Definition or_default (x default : str) : str :=
  match x with [] => default | _ => x end.

(** ** [update_readmes.py] *)

Module Readmes.

Definition EXCLUDE_PATTERNS : list pattern :=
  [Prefix (lit ".git"); Prefix (lit ".github");
   Exact (lit "LICENSE"); Exact (lit ".gitignore")].

Definition get_repo_changes := get_repo_changes EXCLUDE_PATTERNS.

(** [find_readme_files], over what [os.walk('.')] yields: for every
    directory its path, its subdirectories and its files, in the order of
    the walk. *)
Definition find_readme_files (walk : list (str * list str * list str))
  : list str :=
  flat_map
    (fun entry =>
       let '(root, _, files) := entry in
       if contains (lit ".git") root then []
       else
         flat_map
           (fun file =>
              if str_eqb (lower file) (lit "readme.md") then
                let readme_path := normpath (path_join root file) in
                [if starts_with readme_path (lit "./")
                 then skipn 2 readme_path else readme_path]
              else [])
           files)
    walk.

Section Run.
(** The working directory of the run, for [os.path.relpath]. *)
Variable cwd : str.

(** The link of the file column: the path relative to the README. *)
Definition file_link (readme_path file_path : str) : str :=
  let readme_dir := dirname readme_path in
  let rel_path :=
    match readme_dir with
    | [] => file_path
    | _ => relpath cwd file_path readme_dir
    end in
  replace (lit " ") (lit "%20") rel_path.

Definition render_row (readme_path : str) (e : str * info) : str :=
  row (basename (fst e)) (file_link readme_path (fst e)) (snd e).

Definition recent_changes_content (readme_path : str)
  (recent_files : list (str * info)) (now : datetime) : str :=
  fragment (map (render_row readme_path) recent_files) now.

(** The body made up for a README that does not exist. *)
Definition placeholder (readme_path : str) : str :=
  lit "# " ++ or_default (dirname readme_path) (lit "Root")
  ++ lit " Directory" ++ nl ++ nl.

(** The [try] around the read: only [FileNotFoundError] is caught. *)
Definition read_or_placeholder (fs : filesystem) (readme_path : str)
  : result str :=
  match read_file fs readme_path with
  | Ok content => Ok content
  | Raise FileNotFoundError => Ok (placeholder readme_path)
  | Raise e => Raise e
  end.

Definition update_readme (fs : filesystem) (readme_path : str)
  (all_file_updates : dict info) (now : datetime) : result filesystem :=
  content <- read_or_placeholder fs readme_path ;;
  let recent_files := get_directory_changes readme_path all_file_updates in
  new_content <-
    splice content (recent_changes_content readme_path recent_files now) ;;
  write_file fs readme_path new_content.

(** [update_all_readmes]: the targets are updated one after the other with
    the one change map; an exception ends the run.  [clock] gives the time
    at which each target is handled. *)
Definition update_all_readmes (walk : list (str * list str * list str))
  (commits : list commit) (clock : str -> datetime) (fs : filesystem)
  : result filesystem :=
  let readme_files := find_readme_files walk in
  let all_file_updates := get_repo_changes commits in
  fold_left
    (fun state readme_path =>
       fs' <- state ;;
       update_readme fs' readme_path all_file_updates (clock readme_path))
    readme_files (Ok fs).
End Run.

End Readmes.

(** ** [update_jekyll_readmes.py] *)

Module Jekyll.

Definition EXCLUDE_PATTERNS : list pattern :=
  [Prefix (lit ".git"); Prefix (lit ".github");
   Exact (lit "LICENSE"); Exact (lit ".gitignore");
   Prefix (lit "_site/"); Prefix (lit ".sass-cache/");
   Prefix (lit ".jekyll-cache/"); Prefix (lit "vendor/")].

Definition JEKYLL_DIRS : list str :=
  [lit "_posts"; lit "_pages"; lit "_layouts"; lit "_includes";
   lit "assets"; lit "img"; lit "video"].

Definition get_repo_changes := get_repo_changes EXCLUDE_PATTERNS.

(** A file is a Jekyll file when it lies in a Jekyll directory or its
    first 500 characters, stripped, start with a front-matter rule; any
    failure of the read counts as no. *)
Definition is_jekyll_file (fs : filesystem) (file_path : str) : bool :=
  if existsb (fun d => starts_with file_path (d ++ lit "/")) JEKYLL_DIRS
  then true
  else match read_file fs file_path with
       | Ok content => starts_with (strip (firstn 500 content)) (lit "---")
       | Raise _ => false
       end.

(** [find_readme_and_index_files], over what [os.walk('.')] yields. *)
Definition find_readme_and_index_files
  (walk : list (str * list str * list str)) : list str :=
  flat_map
    (fun entry =>
       let '(root, _, files) := entry in
       if existsb (fun exclude => contains exclude root)
            [lit ".git"; lit "_site"; lit ".jekyll-cache"; lit ".sass-cache"]
       then []
       else
         flat_map
           (fun file =>
              if str_eqb (lower file) (lit "readme.md")
                 || str_eqb (lower file) (lit "index.md") then
                let file_path := normpath (path_join root file) in
                [if starts_with file_path (lit "./")
                 then skipn 2 file_path else file_path]
              else [])
           files)
    walk.

(** What [create_jekyll_indexes] writes into a new index file. *)
Definition index_body (jekyll_dir : str) : str :=
  lit "---" ++ nl ++ lit "layout: default" ++ nl
  ++ lit "title: " ++ capitalize jekyll_dir ++ lit " Directory" ++ nl
  ++ lit "---" ++ nl ++ nl
  ++ lit "# " ++ capitalize jekyll_dir ++ lit " Directory" ++ nl ++ nl
  ++ lit "This directory contains " ++ lower jekyll_dir ++ lit " files."
  ++ nl ++ nl
  ++ START_MARKER ++ nl
  ++ lit "## Recently Updated Files" ++ nl ++ nl
  ++ lit "*Updates will appear here after the next run*" ++ nl ++ nl
  ++ END_MARKER.

(** The body of the loop of [create_jekyll_indexes]. *)
Definition create_index (state : result filesystem) (jekyll_dir : str)
  : result filesystem :=
  fs <- state ;;
  if isdir fs jekyll_dir
     && negb (path_exists fs (path_join jekyll_dir (lit "index.md")))
  then write_file fs (path_join jekyll_dir (lit "index.md"))
         (index_body jekyll_dir)
  else Ok fs.

Definition create_jekyll_indexes (fs : filesystem) : result filesystem :=
  fold_left create_index JEKYLL_DIRS (Ok fs).

(** [.*?] followed by [\.md], without [DOTALL]: the shortest text free of
    newlines that is followed by [.md]. *)
Fixpoint lazy_until_md (s : str) : option str :=
  if starts_with s (lit ".md") then Some []
  else match s with
       | [] => None
       | c :: t =>
           if Ascii.eqb c "010" then None
           else option_map (cons c) (lazy_until_md t)
       end.

(** [\d{4}-\d{2}-\d{2}] on a text of ten characters. *)
Definition date_shaped (d : str) : bool :=
  match d with
  | [y1; y2; y3; y4; h1; m1; m2; h2; d1; d2] =>
      forallb is_digit [y1; y2; y3; y4; m1; m2; d1; d2]
      && Ascii.eqb h1 "-" && Ascii.eqb h2 "-"
  | _ => false
  end.

(** [re.match(r'_posts/(\d{4}-\d{2}-\d{2})-(.*?)\.md', file_path)] and
    its two groups. *)
Definition post_match (file_path : str) : option (str * str) :=
  if starts_with file_path (lit "_posts/") then
    let r := skipn 7 file_path in
    if date_shaped (firstn 10 r) && starts_with (skipn 10 r) (lit "-") then
      match lazy_until_md (skipn 11 r) with
      | Some slug => Some (firstn 10 r, slug)
      | None => None
      end
    else None
  else None.

(** The link of the file column when the target is a Jekyll file. *)
Definition jekyll_link (file_path : str) : str :=
  let file_ext := splitext_ext (basename file_path) in
  if starts_with file_path (lit "_posts/") then
    match post_match file_path with
    | Some (_, slug) => lit "/blog/" ++ slug
    | None => lit "/" ++ replace (lit ".md") (lit "/") file_path
    end
  else if (str_eqb file_ext (lit ".md") || str_eqb file_ext (lit ".markdown"))
          && negb (ends_with file_path (lit "README.md"))
  then lit "/" ++ replace (lit ".markdown") (lit "/")
                    (replace (lit ".md") (lit "/") file_path)
  else lit "/" ++ file_path.

(** The label of the file column when the target is a Jekyll file. *)
Definition jekyll_name (file_path : str) : str :=
  let file_name :=
    match (if starts_with file_path (lit "_posts/")
           then post_match file_path else None) with
    | Some (date_part, slug) =>
        date_part ++ lit ": " ++ replace (lit "-") (lit " ") slug
    | None => basename file_path
    end in
  if str_eqb (lower file_name) (lit "readme.md")
  then basename (or_default (dirname file_path) (lit "Main"))
  else file_name.

Section Run.
Variable cwd : str.

(** The body of the [for] loop.  Its loop variable is named
    [file_path], like the parameter of [update_file], so inside the
    loop [file_path] is the changed file: the directory the link is
    made relative to is the changed file's own. *)
Definition render_row (is_jekyll : bool) (e : str * info) : str :=
  let file_path := fst e in
  let current_dir := dirname file_path in
  let rel_path :=
    match current_dir with
    | [] => file_path
    | _ => relpath cwd file_path current_dir
    end in
  let file_link := replace (lit " ") (lit "%20") rel_path in
  if is_jekyll
  then row (jekyll_name file_path) (jekyll_link file_path) (snd e)
  else row (basename file_path) file_link (snd e).

Definition recent_changes_content (is_jekyll : bool)
  (recent_files : list (str * info)) (now : datetime) : str :=
  fragment (map (render_row is_jekyll) recent_files) now.

Definition placeholder (file_path : str) : str :=
  let directory_name := or_default (dirname file_path) (lit "Root") in
  if str_eqb (lower (basename file_path)) (lit "index.md") then
    lit "---" ++ nl ++ lit "layout: default" ++ nl
    ++ lit "title: " ++ capitalize directory_name ++ lit " Directory" ++ nl
    ++ lit "---" ++ nl ++ nl
    ++ lit "# " ++ capitalize directory_name ++ lit " Directory" ++ nl ++ nl
  else
    lit "# " ++ capitalize directory_name ++ lit " Directory" ++ nl ++ nl.

Definition read_or_placeholder (fs : filesystem) (file_path : str)
  : result str :=
  match read_file fs file_path with
  | Ok content => Ok content
  | Raise FileNotFoundError => Ok (placeholder file_path)
  | Raise e => Raise e
  end.

(** What [file_path] names once the [for] loop is over: the last
    changed file listed, or still the target when nothing was listed. *)
Definition path_after_loop (file_path : str)
  (recent_files : list (str * info)) : str :=
  fst (last recent_files (file_path, record_of
         (mk_commit (mk_datetime 0 0 0 0 0 0) [] [] [] []))).

Definition update_file (fs : filesystem) (file_path : str)
  (all_file_updates : dict info) (now : datetime) : result filesystem :=
  let is_jekyll := is_jekyll_file fs file_path in
  content <- read_or_placeholder fs file_path ;;
  let recent_files := get_directory_changes file_path all_file_updates in
  new_content <-
    splice content (recent_changes_content is_jekyll recent_files now) ;;
  let file_path := path_after_loop file_path recent_files in
  fs_made <- makedirs fs (or_default (dirname file_path) (lit ".")) ;;
  write_file fs_made file_path new_content.

(** [update_all_files]: the index files are made first, then the checkout
    is walked, the change map is built once and the targets are updated
    one after the other; an exception ends the run.  [walk] is what
    [os.walk('.')] yields on a file system, [clock] gives the time at
    which each target is handled. *)
Definition update_all_files
  (walk : filesystem -> list (str * list str * list str))
  (commits : list commit) (clock : str -> datetime) (fs : filesystem)
  : result filesystem :=
  fs_indexed <- create_jekyll_indexes fs ;;
  let markdown_files := find_readme_and_index_files (walk fs_indexed) in
  let all_file_updates := get_repo_changes commits in
  fold_left
    (fun state file_path =>
       fs' <- state ;;
       update_file fs' file_path all_file_updates (clock file_path))
    markdown_files (Ok fs_indexed).
End Run.

End Jekyll.


(** ** Notions used in the statements *)

(** [x] is listed before [y] only if it is at least as recent. *)
Definition newer_or_equal (x y : str * info) : Prop :=
  dt_geb (date (snd x)) (date (snd y)) = true.

(** The pairs of commit and touched file, in the order in which the two
    nested loops of [get_repo_changes] visit them. *)
Definition observations (commits : list commit) : list (commit * str) :=
  flat_map (fun c => map (pair c) (files c)) commits.

(** The entries of a dictionary stored under one path. *)
Definition entries_of (p : str) (m : dict info) : list (str * info) :=
  filter (fun e => str_eqb (fst e) p) m.

(** One visit of the two loops, as a step on the dictionary. *)
Definition visit_obs (pats : list pattern) (fu : dict info)
  (o : commit * str) : dict info :=
  track pats (fst o) fu (snd o).

(** What the filter of [get_directory_changes] lets through. *)
Definition in_scope (directory : str) (e : str * info) : bool :=
  starts_with (fst e) (directory_prefix directory)
  && negb (str_eqb (fst e) directory).

(** A path component that [normpath] keeps as it is. *)
Definition plain_comp (c : str) : bool :=
  negb (existsb is_sep c) && negb (str_eqb c [])
  && negb (str_eqb c (lit ".")) && negb (str_eqb c (lit "..")).

(** What a run of [os.makedirs] leaves: the files as they were, the
    directories that were there, and new directories only at leading parts
    of the name at which nothing existed. *)
Definition grown_towards (name : str) (fs fs' : filesystem) : Prop :=
  file_map fs' = file_map fs
  /\ (forall d, isdir fs d = true -> isdir fs' d = true)
  /\ (forall d, isdir fs' d = true ->
                isdir fs d = true
                \/ (path_exists fs d = false /\ starts_with name d = true)).

(** ** Sample data of the worked examples *)

Definition jan1 : datetime := mk_datetime 2024 1 1 9 0 0.
Definition jan2 : datetime := mk_datetime 2024 1 2 9 0 0.

Definition commit_old : commit :=
  mk_commit jan1 (lit "first") (lit "u1") (lit "A") [lit "src/a.py"].

Definition commit_new : commit :=
  mk_commit jan2 (lit "second") (lit "u2") (lit "B")
    [lit "src/a.py"; lit "LICENSE"].

Definition commit_tie : commit :=
  mk_commit jan2 (lit "third") (lit "u3") (lit "C") [lit "src/a.py"].

(** The first end marker of a fragment, past its start marker, is the one
    that ends it. *)
Definition closes_once (F : str) : Prop :=
  find END_MARKER (skipn (length START_MARKER) F)
  = Some (length F - length START_MARKER - length END_MARKER).

(** A text holds no backslash. *)
Definition backslash_free (F : str) : Prop :=
  existsb (Ascii.eqb backslash) F = false.

Definition example_info : info :=
  mk_info (mk_datetime 2024 1 2 0 0 0) (lit "fix bug") (lit "u") (lit "A").

(** The change map of the spec's example: one file below [docs/]. *)
Definition example_changes : dict info :=
  [(lit "docs/sub/file.py", example_info)].

(** A checkout in which [docs/readme.md] exists. *)
Definition example_fs : filesystem :=
  {| file_map := [(lit "docs/readme.md", File (lit "# Docs"))];
     dirs := [lit "docs"] |}.

(** A checkout without any file or directory. *)
Definition empty_checkout : filesystem := {| file_map := []; dirs := [] |}.

(** A checkout with [setup.py] and a directory [docs]. *)
Definition small_checkout : filesystem :=
  {| file_map := [(lit "setup.py", File (lit "pass"))];
     dirs := [lit "docs"] |}.

(** A change whose commit message holds a backslash before a letter. *)
Definition regex_changes : dict info :=
  [(lit "docs/a.py",
    mk_info (mk_datetime 2024 1 2 0 0 0) (lit "fix \d regex") (lit "u")
      (lit "A"))].

(** A README that already holds a generated section. *)
Definition sectioned_fs : filesystem :=
  {| file_map :=
       [(lit "docs/README.md",
         File (lit "# Docs" ++ nl ++ START_MARKER ++ nl ++ lit "old" ++ nl
               ++ END_MARKER ++ nl))];
     dirs := [lit "docs"] |}.

(** * Properties *)

(** ** Strings *)

Lemma str_eqb_eq (a b : str) : str_eqb a b = true <-> a = b.
Proof.
  revert b; induction a as [|c a IH]; intros [|d b]; simpl;
    try (split; [discriminate | congruence]); try tauto.
  rewrite andb_true_iff, Ascii.eqb_eq, IH.
  split; [intros [-> ->]; reflexivity | intros H; inversion H; auto].
Qed.

Lemma str_eqb_refl (a : str) : str_eqb a a = true.
Proof. apply str_eqb_eq; reflexivity. Qed.

Lemma str_eqb_neq (a b : str) : str_eqb a b = false <-> a <> b.
Proof.
  rewrite <- str_eqb_eq. destruct (str_eqb a b); split; congruence.
Qed.

Lemma starts_with_app (p t : str) : starts_with (p ++ t) p = true.
Proof.
  induction p as [|c p IH]; simpl; [reflexivity|].
  rewrite Ascii.eqb_refl; exact IH.
Qed.

Lemma starts_with_inv (s p : str) :
  starts_with s p = true -> exists t, s = p ++ t.
Proof.
  revert s; induction p as [|c p IH]; intros s H; simpl in *.
  - exists s; reflexivity.
  - destruct s as [|d s]; [discriminate|].
    apply andb_true_iff in H as [Hc Hs].
    apply Ascii.eqb_eq in Hc; subst d.
    destruct (IH _ Hs) as [t ->]. exists t; reflexivity.
Qed.

(** ** Timestamps *)

Lemma lex_compare_antisym (a b : list nat) :
  lex_compare b a = CompOpp (lex_compare a b).
Proof.
  revert b; induction a as [|x a IH]; intros [|y b]; simpl; try reflexivity.
  rewrite (Nat.compare_antisym x y).
  destruct (Nat.compare x y); simpl; auto.
Qed.

Lemma lex_compare_trans_le (a b c : list nat) :
  lex_compare a b <> Gt -> lex_compare b c <> Gt -> lex_compare a c <> Gt.
Proof.
  revert b c; induction a as [|x a IH]; intros [|y b] [|z c]; simpl;
    try congruence.
  destruct (Nat.compare_spec x y), (Nat.compare_spec y z),
    (Nat.compare_spec x z); subst; try congruence; try lia.
  apply IH.
Qed.

Lemma dt_gtb_asym (a b : datetime) : dt_gtb a b = true -> dt_gtb b a = false.
Proof.
  unfold dt_gtb, dt_compare.
  rewrite (lex_compare_antisym (dt_fields a) (dt_fields b)).
  destruct (lex_compare (dt_fields a) (dt_fields b)); simpl; congruence.
Qed.

Lemma dt_gtb_irrefl (a : datetime) : dt_gtb a a = false.
Proof.
  destruct (dt_gtb a a) eqn:E; [|reflexivity].
  rewrite (dt_gtb_asym _ _ E) in E; discriminate.
Qed.

Lemma dt_geb_refl (a : datetime) : dt_geb a a = true.
Proof. unfold dt_geb; rewrite dt_gtb_irrefl; reflexivity. Qed.

Lemma dt_gtb_geb (a b : datetime) : dt_gtb a b = true -> dt_geb a b = true.
Proof. intros H; unfold dt_geb; rewrite (dt_gtb_asym _ _ H); reflexivity. Qed.

Lemma dt_geb_trans (a b c : datetime) :
  dt_geb a b = true -> dt_geb b c = true -> dt_geb a c = true.
Proof.
  unfold dt_geb, dt_gtb, dt_compare; intros H1 H2.
  assert (G1 : lex_compare (dt_fields b) (dt_fields a) <> Gt)
    by (destruct (lex_compare (dt_fields b) (dt_fields a)); simpl in *; congruence).
  assert (G2 : lex_compare (dt_fields c) (dt_fields b) <> Gt)
    by (destruct (lex_compare (dt_fields c) (dt_fields b)); simpl in *; congruence).
  pose proof (lex_compare_trans_le _ _ _ G2 G1) as G.
  destruct (lex_compare (dt_fields c) (dt_fields a)); simpl; congruence.
Qed.

Lemma dt_gtb_geb_trans (a b c : datetime) :
  dt_gtb a b = true -> dt_geb b c = true -> dt_gtb a c = true.
Proof.
  intros H1 H2. destruct (dt_gtb a c) eqn:E; [reflexivity|].
  assert (H3 : dt_geb c a = true) by (unfold dt_geb; rewrite E; reflexivity).
  pose proof (dt_geb_trans _ _ _ H2 H3) as H4.
  unfold dt_geb in H4. rewrite H1 in H4. discriminate.
Qed.

(** ** Dictionaries *)

Section DictFacts.
Variable V : Type.
Implicit Types (m : dict V) (k : str) (v : V).

Lemma dict_get_set k k' v m :
  dict_get k' (dict_set k v m)
  = if str_eqb k k' then Some v else dict_get k' m.
Proof.
  induction m as [|[k0 v0] m IH]; simpl.
  - reflexivity.
  - destruct (str_eqb k0 k) eqn:E0; simpl.
    + apply str_eqb_eq in E0; subst k0.
      destruct (str_eqb k k'); reflexivity.
    + rewrite IH. destruct (str_eqb k0 k') eqn:E1; [|reflexivity].
      apply str_eqb_eq in E1; subst k0.
      rewrite str_eqb_neq in E0. apply not_eq_sym in E0.
      rewrite <- str_eqb_neq in E0.
      rewrite E0; reflexivity.
Qed.

Lemma dict_set_Forall (P : str * V -> Prop) k v m :
  P (k, v) -> (forall v0, P (k, v0) -> P (k, v)) ->
  Forall P m -> Forall P (dict_set k v m).
Proof.
  intros Hk Hrep; induction 1 as [|[k0 v0] m H0 Hm IH]; simpl.
  - constructor; [exact Hk | constructor].
  - destruct (str_eqb k0 k) eqn:E.
    + apply str_eqb_eq in E; subst k0. constructor; auto.
    + constructor; auto.
Qed.

Lemma keys_dict_set_in k v m :
  dict_get k m <> None -> keys (dict_set k v m) = keys m.
Proof.
  induction m as [|[k0 v0] m IH]; simpl; [congruence|].
  destruct (str_eqb k0 k) eqn:E; simpl; [reflexivity|].
  intros H; rewrite IH; auto.
Qed.

Lemma keys_dict_set_new k v m :
  dict_get k m = None -> keys (dict_set k v m) = keys m ++ [k].
Proof.
  induction m as [|[k0 v0] m IH]; simpl; [reflexivity|].
  destruct (str_eqb k0 k) eqn:E; simpl; [discriminate|].
  intros H; rewrite IH; auto.
Qed.

Lemma dict_get_None_keys k m : dict_get k m = None <-> ~ In k (keys m).
Proof.
  induction m as [|[k0 v0] m IH]; simpl; [tauto|].
  destruct (str_eqb k0 k) eqn:E.
  - apply str_eqb_eq in E; subst. split; [discriminate | tauto].
  - apply str_eqb_neq in E. rewrite IH. tauto.
Qed.
End DictFacts.

(** ** Directory scoper *)

Lemma insert_desc_Forall (P : str * info -> Prop) x l :
  P x -> Forall P l -> Forall P (insert_desc x l).
Proof.
  intros Hx; induction 1 as [|y r Hy Hr IH]; simpl.
  - constructor; [exact Hx | constructor].
  - destruct (dt_gtb (date (snd y)) (date (snd x))); constructor; auto.
Qed.

Lemma sorted_desc_Forall (P : str * info -> Prop) l :
  Forall P l -> Forall P (sorted_desc l).
Proof.
  induction 1 as [|x l Hx Hl IH]; simpl; [constructor|].
  apply insert_desc_Forall; assumption.
Qed.

Lemma insert_desc_sorted x l :
  StronglySorted newer_or_equal l ->
  StronglySorted newer_or_equal (insert_desc x l).
Proof.
  induction 1 as [|y r Hr IH Hy]; simpl.
  - constructor; [constructor | constructor].
  - destruct (dt_gtb (date (snd y)) (date (snd x))) eqn:E.
    + constructor; [exact IH|].
      apply insert_desc_Forall; [|exact Hy].
      apply dt_gtb_geb; exact E.
    + assert (Hxy : newer_or_equal x y)
        by (unfold newer_or_equal, dt_geb; rewrite E; reflexivity).
      constructor; [constructor; assumption|].
      constructor; [exact Hxy|].
      eapply Forall_impl; [|exact Hy].
      intros z Hz. unfold newer_or_equal in *.
      eapply dt_geb_trans; eassumption.
Qed.

Lemma sorted_desc_sorted l : StronglySorted newer_or_equal (sorted_desc l).
Proof.
  induction l as [|x l IH]; simpl; [constructor|].
  apply insert_desc_sorted; exact IH.
Qed.

Lemma firstn_Forall (A : Type) (P : A -> Prop) n (l : list A) :
  Forall P l -> Forall P (firstn n l).
Proof.
  intros H; revert n; induction H as [|x l Hx Hl IH]; intros [|n]; simpl;
    constructor; auto.
Qed.

Lemma firstn_sorted (A : Type) (R : A -> A -> Prop) n (l : list A) :
  StronglySorted R l -> StronglySorted R (firstn n l).
Proof.
  intros H; revert n; induction H as [|x l Hl IH Hx]; intros [|n]; simpl;
    try constructor; auto.
  apply firstn_Forall; exact Hx.
Qed.

Lemma scope_fold_Forall directory (P : str * info -> Prop) cm acc :
  (forall e, In e cm -> starts_with (fst e) (directory_prefix directory) = true ->
             fst e <> directory -> forall v, P (fst e, v)) ->
  Forall P acc ->
  Forall P (fold_left (scope_step directory) cm acc).
Proof.
  revert acc; induction cm as [|e cm IH]; intros acc Hcm Hacc; simpl.
  - exact Hacc.
  - apply IH; [intros; apply Hcm; simpl; auto|].
    unfold scope_step.
    destruct (starts_with (fst e) (directory_prefix directory)) eqn:E1;
      [|exact Hacc].
    destruct (str_eqb (fst e) directory) eqn:E2; [exact Hacc|].
    apply str_eqb_neq in E2.
    apply dict_set_Forall; auto.
    + apply Hcm; simpl; auto.
    + intros; apply Hcm; simpl; auto.
Qed.

Lemma scoped_entries_not_target (directory : str) (cm : dict info) :
  Forall (fun e => fst e <> directory) (get_directory_changes directory cm).
Proof.
  unfold get_directory_changes.
  apply firstn_Forall, sorted_desc_Forall.
  apply scope_fold_Forall with (P := fun e => fst e <> directory);
    [|constructor].
  intros e _ _ Hne v; exact Hne.
Qed.

(** C3: the scoper's result never lists the target itself, has at most ten
    entries, and is in non-increasing order of timestamp. *)
Theorem scoper_no_target_capped_sorted (directory : str) (cm : dict info) :
  let r := get_directory_changes directory cm in
  (forall e, In e r -> fst e <> directory)
  /\ length r <= 10
  /\ StronglySorted newer_or_equal r.
Proof.
  unfold get_directory_changes; cbv zeta. split; [|split].
  - apply Forall_forall. apply scoped_entries_not_target.
  - apply firstn_le_length.
  - apply firstn_sorted, sorted_desc_sorted.
Qed.

(** ** Change aggregator *)

Lemma lex_compare_eq (a b : list nat) : lex_compare a b = Eq -> a = b.
Proof.
  revert b; induction a as [|x a IH]; intros [|y b]; simpl;
    try discriminate; try reflexivity.
  destruct (Nat.compare_spec x y) as [Hxy|Hxy|Hxy]; try discriminate.
  intros Hab; subst; f_equal; auto.
Qed.

Lemma dt_geb_antisym (a b : datetime) :
  dt_geb a b = true -> dt_geb b a = true -> a = b.
Proof.
  unfold dt_geb, dt_gtb, dt_compare; intros H1 H2.
  rewrite (lex_compare_antisym (dt_fields a) (dt_fields b)) in H1.
  destruct (lex_compare (dt_fields a) (dt_fields b)) eqn:E;
    cbn in H1, H2; try discriminate.
  apply lex_compare_eq in E. destruct a, b; unfold dt_fields in E; simpl in E.
  congruence.
Qed.

Lemma in_split_first (x : str) (l : list str) :
  In x l -> exists l1 l2, l = l1 ++ x :: l2 /\ ~ In x l1.
Proof.
  induction l as [|y l IH]; simpl; [tauto|].
  intros Hin. destruct (str_eqb y x) eqn:E.
  - apply str_eqb_eq in E; subst y. exists [], l; simpl; tauto.
  - apply str_eqb_neq in E. destruct Hin as [Hin|Hin]; [congruence|].
    destruct (IH Hin) as (l1 & l2 & -> & Hn).
    exists (y :: l1), l2; simpl; split; [reflexivity|tauto].
Qed.

Section AggregatorFacts.
Variable pats : list pattern.

Local Abbreviation visit := (visit_obs pats).

Lemma loops_as_visits (commits : list commit) (fu : dict info) :
  fold_left (fun fu c => fold_left (track pats c) (files c) fu) commits fu
  = fold_left visit (observations commits) fu.
Proof.
  revert fu; induction commits as [|c cs IH]; intros fu; simpl;
    [reflexivity|].
  unfold observations in *; simpl. rewrite fold_left_app, IH. f_equal.
  generalize (files c); intros fs; revert fu.
  induction fs as [|f fs IHf]; intros fu; simpl; [reflexivity|].
  apply IHf.
Qed.

Lemma in_observations c p commits :
  In (c, p) (observations commits) <-> In c commits /\ In p (files c).
Proof.
  unfold observations. rewrite in_flat_map. split.
  - intros (c' & Hc & Hp). apply in_map_iff in Hp as (f & Hf & Hin).
    inversion Hf; subst; auto.
  - intros [Hc Hp]. exists c; split; [exact Hc|].
    apply in_map; exact Hp.
Qed.

Variable p : str.
Hypothesis p_kept : should_exclude pats p = false.

Lemma visit_other fu c f :
  f <> p -> dict_get p (visit fu (c, f)) = dict_get p fu.
Proof.
  intros Hf; unfold visit_obs, track; simpl.
  apply str_eqb_neq in Hf.
  destruct (should_exclude pats f); [reflexivity|].
  destruct (dict_get f fu) as [old|];
    [destruct (dt_gtb (commit_date c) (date old))|];
    rewrite ?dict_get_set, ?Hf; reflexivity.
Qed.

Lemma visit_same fu c :
  dict_get p (visit fu (c, p))
  = match dict_get p fu with
    | None => Some (record_of c)
    | Some old =>
        if dt_gtb (commit_date c) (date old)
        then Some (record_of c) else Some old
    end.
Proof.
  unfold visit_obs, track; simpl. rewrite p_kept.
  destruct (dict_get p fu) as [old|] eqn:E;
    [destruct (dt_gtb (commit_date c) (date old))|];
    rewrite ?dict_get_set, ?str_eqb_refl; auto.
Qed.

Lemma visit_cases fu c f :
  dict_get p (visit fu (c, f)) = dict_get p fu
  \/ (f = p /\ dict_get p (visit fu (c, f)) = Some (record_of c)).
Proof.
  destruct (str_eqb f p) eqn:Ef.
  - apply str_eqb_eq in Ef; subst f. rewrite visit_same.
    destruct (dict_get p fu) as [old|];
      [destruct (dt_gtb (commit_date c) (date old))|]; auto.
  - apply str_eqb_neq in Ef. left; apply visit_other; exact Ef.
Qed.

(** The record of [p] after some visits is the one before them or the
    record of a visit of [p]. *)
Lemma visits_origin obs fu :
  dict_get p (fold_left visit obs fu) = dict_get p fu
  \/ exists c, In (c, p) obs
               /\ dict_get p (fold_left visit obs fu) = Some (record_of c).
Proof.
  revert fu; induction obs as [|[c f] obs IH]; intros fu; simpl;
    [left; reflexivity|].
  destruct (IH (visit fu (c, f))) as [E | (c' & Hin & E)].
  - rewrite E. destruct (visit_cases fu c f) as [E' | [-> E']]; auto.
    right; exists c; auto.
  - right; exists c'; auto.
Qed.

(** Visits never make the record of [p] older. *)
Lemma visits_mono obs fu r0 :
  dict_get p fu = Some r0 ->
  exists r, dict_get p (fold_left visit obs fu) = Some r
            /\ dt_geb (date r) (date r0) = true.
Proof.
  revert fu r0; induction obs as [|[c f] obs IH]; intros fu r0 H0; simpl.
  - exists r0; split; [exact H0 | apply dt_geb_refl].
  - destruct (str_eqb f p) eqn:Ef.
    + apply str_eqb_eq in Ef; subst f.
      pose proof (visit_same fu c) as Hv. rewrite H0 in Hv.
      destruct (dt_gtb (commit_date c) (date r0)) eqn:G.
      * destruct (IH _ _ Hv) as (r & Hr & Hge). exists r; split; [exact Hr|].
        eapply dt_geb_trans; [exact Hge|]. apply dt_gtb_geb; exact G.
      * apply (IH _ _ Hv).
    + apply str_eqb_neq in Ef. apply IH.
      rewrite visit_other; assumption.
Qed.

(** After the visits, the record of [p] is at least as recent as every
    visit of [p]. *)
Lemma visits_upper obs fu c :
  In (c, p) obs ->
  exists r, dict_get p (fold_left visit obs fu) = Some r
            /\ dt_geb (date r) (commit_date c) = true.
Proof.
  revert fu; induction obs as [|o obs IH]; intros fu Hin; simpl;
    [destruct Hin|].
  destruct Hin as [-> | Hin]; [|apply IH; exact Hin].
  pose proof (visit_same fu c) as Hv.
  destruct (dict_get p fu) as [old|] eqn:E0.
  - destruct (dt_gtb (commit_date c) (date old)) eqn:G.
    + destruct (visits_mono obs _ Hv) as (r & Hr & Hge).
      exists r; split; [exact Hr | exact Hge].
    + destruct (visits_mono obs _ Hv) as (r & Hr & Hge).
      exists r; split; [exact Hr|].
      eapply dt_geb_trans; [exact Hge|].
      unfold dt_geb; rewrite G; reflexivity.
  - destruct (visits_mono obs _ Hv) as (r & Hr & Hge).
    exists r; split; [exact Hr | exact Hge].
Qed.

(** A record survives visits that are not strictly more recent. *)
Lemma visits_stable obs fu r :
  dict_get p fu = Some r ->
  (forall c, In (c, p) obs -> dt_gtb (commit_date c) (date r) = false) ->
  dict_get p (fold_left visit obs fu) = Some r.
Proof.
  revert fu; induction obs as [|[c f] obs IH]; intros fu H0 Hle; simpl;
    [exact H0|].
  apply IH; [|intros; apply Hle; right; assumption].
  destruct (str_eqb f p) eqn:Ef.
  - apply str_eqb_eq in Ef; subst f.
    rewrite visit_same, H0, (Hle c (or_introl eq_refl)); reflexivity.
  - apply str_eqb_neq in Ef. rewrite visit_other; assumption.
Qed.

(** The visit that is strictly more recent than all before it and not
    older than any after it provides the record. *)
Lemma visits_first_latest pre c post :
  (forall c', In (c', p) pre ->
              dt_gtb (commit_date c) (commit_date c') = true) ->
  (forall c', In (c', p) post ->
              dt_gtb (commit_date c') (commit_date c) = false) ->
  dict_get p (fold_left visit (pre ++ (c, p) :: post) [])
  = Some (record_of c).
Proof.
  intros Hpre Hpost. rewrite fold_left_app; simpl.
  apply visits_stable; [|exact Hpost].
  rewrite visit_same.
  destruct (visits_origin pre []) as [E | (c' & Hin & E)]; rewrite E.
  - reflexivity.
  - simpl. rewrite (Hpre _ Hin); reflexivity.
Qed.

Lemma visit_NoDup fu o : NoDup (keys fu) -> NoDup (keys (visit fu o)).
Proof.
  intros Hnd; unfold visit_obs, track.
  destruct (should_exclude pats (snd o)); [exact Hnd|].
  destruct (dict_get (snd o) fu) as [old|] eqn:E.
  - destruct (dt_gtb (commit_date (fst o)) (date old)); [|exact Hnd].
    rewrite keys_dict_set_in; [exact Hnd | congruence].
  - rewrite keys_dict_set_new by exact E.
    apply NoDup_app; [exact Hnd | constructor; [simpl; tauto | constructor] |].
    intros x Hx [<- | []]. apply dict_get_None_keys in E; tauto.
Qed.

Lemma visits_NoDup obs fu :
  NoDup (keys fu) -> NoDup (keys (fold_left visit obs fu)).
Proof.
  revert fu; induction obs as [|o obs IH]; intros fu H; simpl;
    [exact H | apply IH, visit_NoDup, H].
Qed.
End AggregatorFacts.

Lemma entries_of_unique (p : str) (m : dict info) (r : info) :
  NoDup (keys m) -> dict_get p m = Some r -> entries_of p m = [(p, r)].
Proof.
  unfold entries_of.
  induction m as [|[k v] m IH]; simpl; [discriminate|].
  intros Hnd Hget. inversion Hnd as [|? ? Hk Hm]; subst.
  destruct (str_eqb k p) eqn:E.
  - apply str_eqb_eq in E; subst k. inversion Hget; subst v. f_equal.
    clear IH Hget Hnd Hm. induction m as [|[k' v'] m IH]; simpl; [reflexivity|].
    simpl in Hk. destruct (str_eqb k' p) eqn:E'.
    + apply str_eqb_eq in E'; tauto.
    + apply IH; tauto.
  - apply IH; assumption.
Qed.

(** C4: for a path that is not excluded and is touched by one of the
    commits the aggregator reads, the resulting map holds exactly one
    record; it is the record of a commit that touches the path, it is at
    least as recent as every commit that touches the path, and so it
    carries the timestamp of the most recent one (of [t2] when the path
    was touched at [t1 < t2]). *)
Theorem aggregator_keeps_most_recent (pats : list pattern)
  (commits : list commit) (p : str) :
  should_exclude pats p = false ->
  (exists c, In c (firstn 100 commits) /\ In p (files c)) ->
  exists r,
    entries_of p (get_repo_changes pats commits) = [(p, r)]
    /\ (exists c, In c (firstn 100 commits) /\ In p (files c)
                  /\ r = record_of c)
    /\ (forall c, In c (firstn 100 commits) -> In p (files c) ->
                  dt_geb (date r) (commit_date c) = true)
    /\ (forall c2, In c2 (firstn 100 commits) -> In p (files c2) ->
          (forall c, In c (firstn 100 commits) -> In p (files c) ->
                     dt_geb (commit_date c2) (commit_date c) = true) ->
          date r = commit_date c2).
Proof.
  intros Hkept (c0 & Hc0 & Hp0).
  unfold get_repo_changes. rewrite loops_as_visits.
  set (obs := observations (firstn 100 commits)).
  assert (Hobs0 : In (c0, p) obs) by (apply in_observations; auto).
  destruct (@visits_upper pats p Hkept obs [] c0 Hobs0) as (r & Hr & _).
  assert (Hall : forall c, In c (firstn 100 commits) -> In p (files c) ->
                           dt_geb (date r) (commit_date c) = true).
  { intros c Hc Hp.
    assert (Hobs : In (c, p) obs) by (apply in_observations; auto).
    destruct (@visits_upper pats p Hkept obs [] c Hobs) as (r' & Hr' & Hge).
    congruence. }
  assert (Horig : exists c, In c (firstn 100 commits) /\ In p (files c)
                            /\ r = record_of c).
  { destruct (@visits_origin pats p Hkept obs []) as [E | (c & Hin & E)].
    - rewrite Hr in E; discriminate.
    - apply in_observations in Hin as [Hc Hp].
      exists c; repeat split; auto. congruence. }
  exists r; repeat split; auto.
  - apply entries_of_unique; [|exact Hr].
    apply visits_NoDup; constructor.
  - intros c2 Hc2 Hp2 Hmax.
    destruct Horig as (c & Hc & Hp & ->). simpl.
    apply dt_geb_antisym; [apply (Hall c2 Hc2 Hp2) | apply Hmax; auto].
Qed.

(** C10: the commit that touches a path, is strictly more recent than
    every commit touching it that was visited earlier, and is not older
    than any visited later, provides the record: a later visit with an
    equal timestamp does not replace it. *)
Theorem aggregator_tie_keeps_first (pats : list pattern)
  (commits pre post : list commit) (c : commit) (p : str) :
  firstn 100 commits = pre ++ c :: post ->
  should_exclude pats p = false ->
  In p (files c) ->
  (forall c', In c' pre -> In p (files c') ->
              dt_gtb (commit_date c) (commit_date c') = true) ->
  (forall c', In c' post -> In p (files c') ->
              dt_gtb (commit_date c') (commit_date c) = false) ->
  dict_get p (get_repo_changes pats commits) = Some (record_of c).
Proof.
  intros Hsplit Hkept Hp Hpre Hpost.
  unfold get_repo_changes. rewrite loops_as_visits, Hsplit.
  destruct (in_split_first _ _ Hp) as (f1 & f2 & Hf & Hn).
  unfold observations. rewrite flat_map_app. simpl. rewrite Hf, map_app. simpl.
  rewrite <- !app_assoc. rewrite app_assoc. simpl.
  apply (@visits_first_latest pats p Hkept).
  - intros c' Hin. apply in_app_or in Hin as [Hin | Hin].
    + apply in_observations in Hin as [Hc' Hp']. apply Hpre; assumption.
    + apply in_map_iff in Hin as (f & Hf' & Hin'). inversion Hf'; subst.
      contradiction.
  - intros c' Hin. apply in_app_or in Hin as [Hin | Hin].
    + apply in_map_iff in Hin as (f & Hf' & Hin'). inversion Hf'; subst.
      apply dt_gtb_irrefl.
    + apply in_observations in Hin as [Hc' Hp']. apply Hpost; assumption.
Qed.

Lemma aggregator_keeps_most_recent_witness :
  exists r,
    entries_of (lit "src/a.py") (Readmes.get_repo_changes [commit_new; commit_old])
    = [(lit "src/a.py", r)]
    /\ date r = jan2.
Proof.
  destruct (@aggregator_keeps_most_recent Readmes.EXCLUDE_PATTERNS
              [commit_new; commit_old] (lit "src/a.py"))
    as (r & H1 & _ & _ & H4).
  - reflexivity.
  - exists commit_new; simpl; auto.
  - exists r; split; [exact H1|].
    apply (H4 commit_new); simpl; auto.
    intros c [<- | [<- | []]] _; reflexivity.
Defined.

Lemma aggregator_tie_keeps_first_witness :
  dict_get (lit "src/a.py")
    (Readmes.get_repo_changes [commit_new; commit_tie; commit_old])
  = Some (record_of commit_new).
Proof.
  apply (@aggregator_tie_keeps_first Readmes.EXCLUDE_PATTERNS
           [commit_new; commit_tie; commit_old] []
           [commit_tie; commit_old] commit_new (lit "src/a.py")).
  - reflexivity.
  - reflexivity.
  - simpl; auto.
  - intros c' [].
  - intros c' [<- | [<- | []]] _; reflexivity.
Defined.

(** ** Renderer: the commit message column *)



(** ** Occurrences of a substring *)

Lemma starts_with_app_l (s p t : str) :
  starts_with s p = true -> starts_with (s ++ t) p = true.
Proof.
  intros H; destruct (starts_with_inv _ _ H) as [r ->].
  rewrite <- app_assoc; apply starts_with_app.
Qed.

Lemma starts_with_trans (s a b : str) :
  starts_with s a = true -> starts_with a b = true -> starts_with s b = true.
Proof.
  intros Ha Hb. destruct (starts_with_inv _ _ Ha) as [t ->].
  apply starts_with_app_l; exact Hb.
Qed.

(** An occurrence that does not contain [d] ends before a [d]. *)
Lemma starts_with_cut (x y u : str) (d : ascii) :
  starts_with (x ++ d :: y) u = true -> ~ In d u -> starts_with x u = true.
Proof.
  revert x; induction u as [|c u IH]; intros x H Hd; simpl in *;
    [reflexivity|].
  destruct x as [|x0 x]; simpl in H.
  - apply andb_true_iff in H as [Hc _]. apply Ascii.eqb_eq in Hc. tauto.
  - apply andb_true_iff in H as [Hc Hs]. rewrite Hc; simpl.
    apply IH; tauto.
Qed.

Lemma occurrence_contains (sub s : str) (j : nat) :
  starts_with (skipn j s) sub = true -> contains sub s = true.
Proof.
  unfold contains. revert j; induction s as [|c s IH]; intros j H.
  - rewrite skipn_nil in H. simpl. rewrite H. reflexivity.
  - simpl. destruct (starts_with (c :: s) sub) eqn:E; [reflexivity|].
    destruct j as [|j]; [simpl in H; congruence|].
    simpl in H. specialize (IH j H).
    destruct (find sub s); [reflexivity | discriminate].
Qed.

Lemma no_occurrence (sub s : str) (j : nat) :
  contains sub s = false -> starts_with (skipn j s) sub = false.
Proof.
  intros H. destruct (starts_with (skipn j s) sub) eqn:E; [|reflexivity].
  rewrite (occurrence_contains _ _ _ E) in H. discriminate.
Qed.

Lemma skipn_app_le (A : Type) (j : nat) (s t : list A) :
  j <= length s -> skipn j (s ++ t) = skipn j s ++ t.
Proof.
  intros H. rewrite skipn_app.
  replace (j - length s) with 0 by lia. reflexivity.
Qed.

(** An occurrence of [c :: u] that starts inside [s] and is followed by a
    character [d] foreign to [u] lies inside [s]. *)
Lemma no_straddle (s y u : str) (c d : ascii) (j : nat) :
  j < length s -> ~ In d u -> contains (c :: u) s = false ->
  starts_with (skipn j (s ++ d :: y)) (c :: u) = false.
Proof.
  intros Hj Hd Hs.
  destruct (starts_with (skipn j (s ++ d :: y)) (c :: u)) eqn:E;
    [|reflexivity].
  rewrite skipn_app_le in E by lia.
  pose proof (no_occurrence (c :: u) s j Hs) as Hno.
  destruct (skipn j s) as [|x0 x] eqn:Ex.
  - apply (f_equal (@length ascii)) in Ex. rewrite length_skipn in Ex.
    simpl in Ex. lia.
  - simpl in E, Hno. apply andb_true_iff in E as [Hc Hu].
    rewrite Hc in Hno; simpl in Hno.
    rewrite (starts_with_cut _ _ _ _ Hu Hd) in Hno. discriminate.
Qed.

(** ** [str.replace] *)

Lemma replace_aux_skip_all (old new s : str) (k : nat) :
  length s <= k -> replace_aux old new k s = [].
Proof.
  revert k; induction s as [|c s IH]; intros k H; simpl; [reflexivity|].
  destruct k as [|k]; simpl in H; [lia|]. apply IH; lia.
Qed.


(** ** Renderer: links of the Jekyll variant *)






(** ** [find] *)

Lemma find_Some_occurrence (sub s : str) (i : nat) :
  find sub s = Some i ->
  starts_with (skipn i s) sub = true /\ i + length sub <= length s.
Proof.
  revert i; induction s as [|c s IH]; intros i H; simpl in H.
  - destruct (starts_with [] sub) eqn:E; [|discriminate].
    inversion H; subst. split; [exact E|].
    destruct sub; [simpl; lia | discriminate].
  - destruct (starts_with (c :: s) sub) eqn:E.
    + inversion H; subst. split; [exact E|].
      destruct (starts_with_inv _ _ E) as [t Ht].
      rewrite Ht, length_app. lia.
    + destruct (find sub s) as [k|] eqn:Ek; [|discriminate].
      inversion H; subst. destruct (IH k eq_refl) as [H1 H2].
      split; [exact H1 | simpl; lia].
Qed.

(** The first occurrence stays the first when text is appended. *)
Lemma find_app_stable (sub s r : str) (i : nat) :
  find sub s = Some i -> find sub (s ++ r) = Some i.
Proof.
  revert i; induction s as [|c s IH]; intros i H; simpl in H.
  - destruct (starts_with [] sub) eqn:E; [|discriminate].
    inversion H; subst. destruct sub; [|discriminate].
    destruct r; reflexivity.
  - change ((c :: s) ++ r) with (c :: (s ++ r)). cbn [find].
    destruct (starts_with (c :: s) sub) eqn:E.
    + inversion H; subst.
      change (c :: (s ++ r)) with ((c :: s) ++ r).
      rewrite (starts_with_app_l _ _ r E). reflexivity.
    + destruct (find sub s) as [k|] eqn:Ek; [|discriminate].
      inversion H; subst. rewrite (IH k eq_refl). simpl.
      destruct (starts_with (c :: s ++ r) sub) eqn:E'; [|reflexivity].
      exfalso.
      destruct (find_Some_occurrence sub s Ek) as [_ Hlen].
      destruct (starts_with_inv _ _ E') as [t Ht].
      assert (Hpre : starts_with (c :: s) sub = true).
      { assert (Hfn : firstn (length sub) (c :: s ++ r) = sub)
          by (rewrite Ht, firstn_app, firstn_all, Nat.sub_diag; simpl;
              apply app_nil_r).
        change (c :: s ++ r) with ((c :: s) ++ r) in Hfn.
        rewrite firstn_app in Hfn.
        replace (length sub - length (c :: s)) with 0 in Hfn
          by (simpl; lia).
        simpl firstn at 2 in Hfn. rewrite app_nil_r in Hfn.
        rewrite <- (firstn_skipn (length sub) (c :: s)), Hfn.
        apply starts_with_app. }
      congruence.
Qed.

Lemma contains_tail (sub s : str) (c : ascii) :
  contains sub (c :: s) = false -> contains sub s = false.
Proof.
  unfold contains; simpl.
  destruct (starts_with (c :: s) sub); [discriminate|].
  destruct (find sub s); [discriminate | reflexivity].
Qed.

Lemma contains_head (sub s : str) (c : ascii) :
  contains sub (c :: s) = false -> starts_with (c :: s) sub = false.
Proof. intros H; exact (no_occurrence sub (c :: s) 0 H). Qed.

Lemma contains_app_mid (u a m b : str) :
  contains u m = true -> contains u (a ++ m ++ b) = true.
Proof.
  unfold contains at 1. destruct (find u m) as [i|] eqn:E; [|discriminate].
  intros _. destruct (find_Some_occurrence u m E) as [Hocc Hlen].
  apply (occurrence_contains u (a ++ m ++ b) (length a + i)).
  rewrite skipn_app.
  replace (length a + i - length a) with i by lia.
  rewrite skipn_all2 by lia. simpl.
  rewrite skipn_app_le by lia. apply starts_with_app_l; exact Hocc.
Qed.

(** A prefix without the first character of [u] holds no occurrence of
    [u], and none starts in it. *)
Lemma find_past_foreign_prefix (u0 : ascii) (u x r : str) :
  ~ In u0 x ->
  find (u0 :: u) (x ++ r) = option_map (Nat.add (length x)) (find (u0 :: u) r).
Proof.
  intros Hx; induction x as [|x0 x IH].
  - simpl. destruct (find (u0 :: u) r); reflexivity.
  - change ((x0 :: x) ++ r) with (x0 :: (x ++ r)). cbn [find].
    assert (E : starts_with (x0 :: x ++ r) (u0 :: u) = false).
    { simpl. destruct (Ascii.eqb u0 x0) eqn:E0; [|reflexivity].
      apply Ascii.eqb_eq in E0; subst. simpl in Hx; tauto. }
    rewrite E, IH by (simpl in Hx; tauto).
    destruct (find (u0 :: u) r); reflexivity.
Qed.

(** ** The template parser never runs out of fuel *)

Lemma until_gt_shorter (s name rest : str) :
  until_gt s = Some (name, rest) -> length rest < length s.
Proof.
  revert name; induction s as [|c s IH]; intros name H; simpl in H;
    [discriminate|].
  destruct (Ascii.eqb c ">").
  - inversion H; subst. simpl. lia.
  - destruct (until_gt s) as [[n r]|]; [|discriminate].
    inversion H; subst. specialize (IH _ eq_refl). simpl. lia.
Qed.

(** Any fuel above the length of the replacement string gives the same
    result, so [None] always stands for a raise of the parser. *)
Lemma parse_template_fuel (s : str) (f1 f2 : nat) :
  length s < f1 -> length s < f2 ->
  parse_template f1 s = parse_template f2 s.
Proof.
  remember (length s) as n eqn:Hn. revert s Hn f1 f2.
  induction n as [n IH] using lt_wf_ind. intros s Hn f1 f2 H1 H2.
  assert (Hrec : forall t g1 g2, length t < length s ->
                   length t < g1 -> length t < g2 ->
                   parse_template g1 t = parse_template g2 t).
  { intros t g1 g2 Ht Hg1 Hg2. apply (IH (length t)); auto; lia. }
  clear IH.
  destruct f1 as [|f1]; [lia|]. destruct f2 as [|f2]; [lia|].
  subst n. cbn [parse_template].
  destruct s as [|c0 t0]; [reflexivity|]. simpl in H1, H2, Hrec.
  destruct (negb (Ascii.eqb c0 backslash)).
  { f_equal. apply Hrec; lia. }
  destruct t0 as [|c t]; [reflexivity|]. simpl in H1, H2, Hrec.
  destruct (Ascii.eqb c "g").
  { destruct t as [|lt t']; [reflexivity|]. simpl in H1, H2, Hrec.
    destruct (Ascii.eqb lt "<"); [|reflexivity].
    destruct (until_gt t') as [[name rest]|] eqn:E; [|reflexivity].
    destruct (is_zero_numeral name); [|reflexivity].
    pose proof (until_gt_shorter _ E). f_equal. apply Hrec; lia. }
  destruct (Ascii.eqb c "0").
  { destruct t as [|d1 t1]; [f_equal; apply Hrec; simpl; lia|].
    simpl in H1, H2, Hrec.
    destruct (is_octal d1).
    - destruct t1 as [|d2 t2]; [f_equal; apply Hrec; simpl; lia|].
      simpl in H1, H2, Hrec.
      destruct (is_octal d2); f_equal; apply Hrec; simpl; lia.
    - f_equal. apply Hrec; simpl; lia. }
  destruct (is_digit c).
  { destruct t as [|d1 [|d2 t2]]; try reflexivity. simpl in H1, H2, Hrec.
    destruct (is_octal c && is_octal d1 && is_octal d2); [|reflexivity].
    destruct (255 <? _); [reflexivity|]. f_equal. apply Hrec; lia. }
  destruct (escape_char c).
  { f_equal. apply Hrec; lia. }
  destruct (is_ascii_letter c); [reflexivity|].
  do 2 f_equal. apply Hrec; lia.
Qed.

(** ** The scan of [re.sub] with a literal replacement *)

Lemma expand_literal (s m : str) : expand (map TLit s) m = s.
Proof. induction s as [|c s IH]; simpl; congruence. Qed.

(** A replacement string without backslash is taken as it is. *)
Lemma parse_template_literal (s : str) (fuel : nat) :
  length s < fuel -> ~ In backslash s ->
  parse_template fuel s = Some (map TLit s).
Proof.
  revert fuel; induction s as [|c s IH]; intros [|fuel] Hlen Hbs;
    simpl in Hlen; try lia; [reflexivity|].
  cbn [parse_template].
  destruct (Ascii.eqb c backslash) eqn:E.
  - apply Ascii.eqb_eq in E. subst c. simpl in Hbs. tauto.
  - cbn [negb]. rewrite IH; [reflexivity | lia | simpl in Hbs; tauto].
Qed.

Lemma start_marker_shape : START_MARKER = "<"%char :: tl START_MARKER.
Proof. reflexivity. Qed.

Lemma start_marker_tail_foreign : ~ In "<"%char (tl START_MARKER).
Proof.
  assert (H : forallb (fun c => negb (Ascii.eqb c "<")) (tl START_MARKER) = true)
    by reflexivity.
  rewrite forallb_forall in H. intros Hin. specialize (H _ Hin).
  rewrite Ascii.eqb_refl in H. discriminate.
Qed.

Lemma match_len_head (c : ascii) (t : str) :
  c <> "<"%char -> match_len (c :: t) = None.
Proof.
  intros Hc. unfold match_len. rewrite start_marker_shape at 1.
  cbn [starts_with].
  destruct (Ascii.eqb "<" c) eqn:E; [|reflexivity].
  apply Ascii.eqb_eq in E. congruence.
Qed.

Lemma match_len_pos (s : str) (n : nat) : match_len s = Some n -> 1 <= n.
Proof.
  unfold match_len. destruct (starts_with s START_MARKER); [|discriminate].
  destruct (find END_MARKER (skipn (length START_MARKER) s)); [|discriminate].
  intros H; inversion H. change (length START_MARKER) with 29. lia.
Qed.

Lemma match_len_contains_end (s : str) (n : nat) :
  match_len s = Some n -> contains END_MARKER s = true.
Proof.
  unfold match_len. destruct (starts_with s START_MARKER); [|discriminate].
  destruct (find END_MARKER (skipn (length START_MARKER) s)) as [j|] eqn:E;
    [|discriminate].
  intros _. destruct (find_Some_occurrence _ _ E) as [Hocc _].
  rewrite skipn_skipn in Hocc.
  exact (occurrence_contains _ _ _ Hocc).
Qed.

Section LiteralSub.
(** The replacement text: it starts with the start marker, and the first
    end marker after that is the one it ends with. *)
Variable F : str.
Hypothesis F_start : starts_with F START_MARKER = true.
Hypothesis F_end :
  find END_MARKER (skipn (length START_MARKER) F)
  = Some (length F - length START_MARKER - length END_MARKER).

Local Abbreviation sub := (sub_aux (map TLit F) 0).

Lemma sub_aux_skip (k : nat) (s : str) :
  sub_aux (map TLit F) k s = sub (skipn k s).
Proof.
  revert k; induction s as [|c s IH]; intros [|k]; try reflexivity.
  cbn [sub_aux skipn]. apply IH.
Qed.

Lemma sub_match (s : str) (n : nat) :
  match_len s = Some n -> sub s = F ++ sub (skipn n s).
Proof.
  intros H. pose proof (match_len_pos _ H) as Hn.
  destruct s as [|c t]; [vm_compute in H; discriminate|].
  cbn [sub_aux]. rewrite H, expand_literal, sub_aux_skip. f_equal.
  destruct n as [|n]; [lia|]. simpl. rewrite Nat.sub_0_r. reflexivity.
Qed.

Lemma sub_nomatch (c : ascii) (t : str) :
  match_len (c :: t) = None -> sub (c :: t) = c :: sub t.
Proof. intros H. cbn [sub_aux]. rewrite H. reflexivity. Qed.

Lemma F_length : length START_MARKER + length END_MARKER <= length F.
Proof.
  destruct (starts_with_inv _ _ F_start) as [t Ht].
  destruct (find_Some_occurrence _ _ F_end) as [_ H].
  rewrite length_skipn in H.
  assert (Hs : length START_MARKER <= length F)
    by (rewrite Ht, length_app; lia).
  change (length END_MARKER) with 27 in *. lia.
Qed.

Lemma match_len_F (x : str) : match_len (F ++ x) = Some (length F).
Proof.
  pose proof F_length as HF. unfold match_len.
  rewrite (starts_with_app_l _ _ x F_start).
  rewrite skipn_app_le by lia.
  rewrite (find_app_stable _ _ x F_end). f_equal. lia.
Qed.

Lemma sub_F (x : str) : sub (F ++ x) = F ++ sub x.
Proof.
  rewrite (sub_match _ (match_len_F x)).
  rewrite skipn_app, skipn_all, Nat.sub_diag. reflexivity.
Qed.

Lemma F_head : exists r, F = "<"%char :: r.
Proof.
  destruct (starts_with_inv _ _ F_start) as [t Ht].
  rewrite start_marker_shape in Ht. eexists; exact Ht.
Qed.

(** No match starts in a stretch without [<]. *)
Lemma sub_foreign_prefix (x r : str) :
  ~ In "<"%char x -> sub (x ++ r) = x ++ sub r.
Proof.
  induction x as [|x0 x IH]; intros Hx; [reflexivity|].
  change ((x0 :: x) ++ r) with (x0 :: (x ++ r)).
  rewrite sub_nomatch by (apply match_len_head; simpl in Hx; intuition).
  rewrite IH by (simpl in Hx; tauto). reflexivity.
Qed.

(** Without an end marker nothing matches. *)
Lemma sub_no_end (s : str) : contains END_MARKER s = false -> sub s = s.
Proof.
  induction s as [|c s IH]; intros H; [reflexivity|].
  destruct (match_len (c :: s)) as [n|] eqn:E.
  - rewrite (match_len_contains_end _ E) in H. discriminate.
  - rewrite (sub_nomatch _ _ E), IH; [reflexivity|].
    exact (contains_tail _ _ _ H).
Qed.

(** A text without [<] at the head of the result was at the head of the
    input. *)
Lemma sub_prefix_back (u t : str) :
  ~ In "<"%char u -> starts_with (sub t) u = true -> starts_with t u = true.
Proof.
  revert t; induction u as [|c u IH]; intros t Hu H; [reflexivity|].
  destruct t as [|d t]; [simpl in H; discriminate|].
  destruct (match_len (d :: t)) as [n|] eqn:E.
  - rewrite (sub_match _ E) in H. destruct F_head as [r Hr].
    rewrite Hr in H. simpl in H. apply andb_true_iff in H as [Hc _].
    apply Ascii.eqb_eq in Hc. simpl in Hu. tauto.
  - rewrite (sub_nomatch _ _ E) in H. simpl in H |- *.
    apply andb_true_iff in H as [Hc Hs]. rewrite Hc. simpl.
    apply IH; [simpl in Hu; tauto | exact Hs].
Qed.

Lemma match_len_after_sub (c : ascii) (t : str) :
  match_len (c :: t) = None -> match_len (c :: sub t) = None.
Proof.
  intros H. destruct (starts_with (c :: t) START_MARKER) eqn:Es.
  - destruct (starts_with_inv _ _ Es) as [r Hr].
    assert (Hend : contains END_MARKER r = false).
    { unfold match_len in H. rewrite Es, Hr in H.
      rewrite skipn_app, skipn_all, Nat.sub_diag in H. simpl skipn in H.
      simpl app in H. unfold contains.
      destruct (find END_MARKER r); [discriminate|reflexivity]. }
    assert (Ht : t = tl START_MARKER ++ r)
      by (apply (f_equal (@tl ascii)) in Hr; exact Hr).
    rewrite Ht in H |- *.
    rewrite sub_foreign_prefix by apply start_marker_tail_foreign.
    rewrite (sub_no_end _ Hend). exact H.
  - unfold match_len.
    destruct (starts_with (c :: sub t) START_MARKER) eqn:E'; [|reflexivity].
    exfalso. rewrite start_marker_shape in E', Es. cbn [starts_with] in E', Es.
    apply andb_true_iff in E' as [Hc Hs]. rewrite Hc in Es. cbn [andb] in Es.
    rewrite (sub_prefix_back _ _ start_marker_tail_foreign Hs) in Es.
    discriminate.
Qed.

(** Scanning the result of a scan changes nothing. *)
Lemma sub_idempotent (s : str) : sub (sub s) = sub s.
Proof.
  remember (length s) as n eqn:Hn. revert s Hn.
  induction n as [n IH] using lt_wf_ind. intros s Hn.
  destruct s as [|c t]; [reflexivity|].
  destruct (match_len (c :: t)) as [k|] eqn:E.
  - rewrite (sub_match _ E), sub_F. f_equal.
    apply (IH (length (skipn k (c :: t)))); [|reflexivity].
    pose proof (match_len_pos _ E). rewrite length_skipn. subst n.
    change (length (c :: t)) with (S (length t)). lia.
  - rewrite (sub_nomatch _ _ E).
    rewrite (sub_nomatch _ _ (match_len_after_sub _ _ E)). f_equal.
    apply (IH (length t)); [subst n; simpl; lia | reflexivity].
Qed.

(** The result is the input, or holds the replacement text. *)
Lemma sub_shape (s : str) :
  sub s = s \/ exists a b, sub s = a ++ F ++ b.
Proof.
  induction s as [|c t IH]; [left; reflexivity|].
  destruct (match_len (c :: t)) as [k|] eqn:E.
  - right. exists [], (sub (skipn k (c :: t))). apply (sub_match _ E).
  - rewrite (sub_nomatch _ _ E).
    destruct IH as [-> | (a & b & ->)]; [left; reflexivity|].
    right. exists (c :: a), b. reflexivity.
Qed.

Lemma F_contains_start : contains START_MARKER F = true.
Proof. apply (occurrence_contains _ _ 0). exact F_start. Qed.

Lemma F_contains_end : contains END_MARKER F = true.
Proof.
  destruct (find_Some_occurrence _ _ F_end) as [Hocc _].
  rewrite skipn_skipn in Hocc. exact (occurrence_contains _ _ _ Hocc).
Qed.

Lemma sub_keeps_markers (s : str) :
  contains START_MARKER s = true -> contains END_MARKER s = true ->
  contains START_MARKER (sub s) = true /\ contains END_MARKER (sub s) = true.
Proof.
  intros Hs He. destruct (sub_shape s) as [-> | (a & b & ->)]; [auto|].
  split; apply contains_app_mid; [apply F_contains_start | apply F_contains_end].
Qed.

(** After an append to a text without start marker, the only match is the
    appended fragment. *)
Lemma sub_after_append (s : str) :
  contains START_MARKER s = false ->
  sub (s ++ nl ++ nl ++ F) = s ++ nl ++ nl ++ F.
Proof.
  induction s as [|c s IH]; intros H.
  - change ([] ++ nl ++ nl ++ F) with (nl ++ (nl ++ F)).
    rewrite sub_foreign_prefix by (unfold nl; simpl; intuition discriminate).
    rewrite sub_foreign_prefix by (unfold nl; simpl; intuition discriminate).
    pose proof (sub_F []) as HF. cbn [sub_aux] in HF.
    rewrite !app_nil_r in HF. rewrite HF. reflexivity.
  - change ((c :: s) ++ nl ++ nl ++ F) with (c :: (s ++ nl ++ nl ++ F)).
    rewrite sub_nomatch.
    + rewrite IH by exact (contains_tail _ _ _ H). reflexivity.
    + unfold match_len.
      destruct (starts_with (c :: s ++ nl ++ nl ++ F) START_MARKER) eqn:E;
        [|reflexivity].
      exfalso. pose proof (contains_head _ _ _ H) as Hh.
      change (c :: s ++ nl ++ nl ++ F)
        with ((c :: s) ++ "010"%char :: (nl ++ F)) in E.
      apply starts_with_cut in E; [congruence|].
      assert (Hf : forallb (fun a => negb (Ascii.eqb a "010")) START_MARKER = true)
        by reflexivity.
      rewrite forallb_forall in Hf. intros Hin. specialize (Hf _ Hin).
      rewrite Ascii.eqb_refl in Hf. discriminate.
Qed.

End LiteralSub.

(** ** Splicer: running it again *)

Lemma backslash_free_not_in (F : str) : backslash_free F -> ~ In backslash F.
Proof.
  unfold backslash_free. intros H Hin.
  assert (E : existsb (Ascii.eqb backslash) F = true).
  { apply existsb_exists. exists backslash. split; [exact Hin|].
    apply Ascii.eqb_refl. }
  congruence.
Qed.

Lemma re_sub_literal (F content : str) :
  backslash_free F -> re_sub F content = Ok (sub_aux (map TLit F) 0 content).
Proof.
  intros H. unfold re_sub.
  rewrite parse_template_literal;
    [reflexivity | lia | apply backslash_free_not_in; exact H].
Qed.

Lemma fragment_starts (rows : list str) (now : datetime) :
  starts_with (fragment rows now) START_MARKER = true.
Proof. unfold fragment. apply starts_with_app. Qed.

(** C2, as the code has it: when the target holds no start marker without
    an end marker, and the rendered fragment holds no backslash and no end
    marker before its closing one, a second run on the output of the first
    (same fragment, hence same change map and same time) reproduces that
    output. *)
Theorem splice_twice_by_design (content : str) (rows : list str)
  (now : datetime) :
  let F := fragment rows now in
  backslash_free F ->
  closes_once F ->
  (contains START_MARKER content = true ->
   contains END_MARKER content = true) ->
  exists out, splice content F = Ok out /\ splice out F = Ok out.
Proof.
  intros F Hbs Hend Hwf.
  pose proof (fragment_starts rows now) as Hstart. fold F in Hstart.
  unfold splice.
  destruct (contains START_MARKER content) eqn:Hs.
  - rewrite (Hwf eq_refl). cbn [andb].
    exists (sub_aux (map TLit F) 0 content).
    split; [apply re_sub_literal; exact Hbs|].
    destruct (@sub_keeps_markers F Hstart Hend content Hs (Hwf eq_refl))
      as [-> ->].
    cbn [andb]. rewrite re_sub_literal by exact Hbs.
    rewrite (@sub_idempotent F Hstart Hend). reflexivity.
  - cbn [andb]. exists (content ++ nl ++ nl ++ F). split; [reflexivity|].
    assert (H1 : contains START_MARKER (content ++ nl ++ nl ++ F) = true).
    { rewrite <- (app_nil_r F).
      replace (content ++ nl ++ nl ++ F ++ [])
        with ((content ++ nl ++ nl) ++ F ++ [])
        by (rewrite <- !app_assoc; reflexivity).
      apply contains_app_mid, (@F_contains_start F Hstart). }
    assert (H2 : contains END_MARKER (content ++ nl ++ nl ++ F) = true).
    { rewrite <- (app_nil_r F).
      replace (content ++ nl ++ nl ++ F ++ [])
        with ((content ++ nl ++ nl) ++ F ++ [])
        by (rewrite <- !app_assoc; reflexivity).
      apply contains_app_mid, (@F_contains_end F Hend). }
    rewrite H1, H2. cbn [andb]. rewrite re_sub_literal by exact Hbs.
    rewrite (@sub_after_append F Hstart Hend content Hs). reflexivity.
Qed.

Lemma splice_twice_by_design_witness :
  exists out,
    splice (lit "# Notes") (fragment [] jan1) = Ok out
    /\ splice out (fragment [] jan1) = Ok out.
Proof.
  apply (@splice_twice_by_design (lit "# Notes") [] jan1).
  - reflexivity.
  - reflexivity.
  - intros H; vm_compute in H; discriminate.
Defined.

(** C2 as stated fails on a target that holds a start marker and no end
    marker: the first run appends the fragment, the second replaces
    everything from the old start marker on. *)
Lemma splice_twice_counterexample :
  splice START_MARKER (fragment [] jan1)
  = Ok (START_MARKER ++ nl ++ nl ++ fragment [] jan1)
  /\ splice (START_MARKER ++ nl ++ nl ++ fragment [] jan1) (fragment [] jan1)
     = Ok (fragment [] jan1)
  /\ START_MARKER ++ nl ++ nl ++ fragment [] jan1 <> fragment [] jan1.
Proof.
  split; [vm_compute; reflexivity|]. split; [vm_compute; reflexivity|].
  intros H. apply (f_equal (@length ascii)) in H. vm_compute in H.
  discriminate.
Qed.

(** ** [os.path.relpath] below the start directory *)

Lemma abs_comps_relative (cwd p : str) :
  starts_with p (lit "/") = false ->
  abs_comps cwd p
  = rev (fold_left norm_step (split_sep p)
           (fold_left norm_step (split_sep cwd) [])).
Proof.
  intros H. unfold abs_comps. rewrite H, fold_left_app. reflexivity.
Qed.

Lemma common_len_app (pre a b : list str) :
  common_len (pre ++ a) (pre ++ b) = length pre + common_len a b.
Proof.
  induction pre as [|x pre IH]; simpl; [reflexivity|].
  rewrite str_eqb_refl, IH. reflexivity.
Qed.

(** When the path lies below the start directory, the relative path is
    what the path adds to it. *)
Lemma relpath_descend (cwd path start : str) (pre r : list str) :
  abs_comps cwd start = pre ->
  abs_comps cwd path = pre ++ r ->
  r <> [] ->
  relpath cwd path start = join (lit "/") r.
Proof.
  intros Hs Hp Hr. unfold relpath. rewrite Hs, Hp.
  assert (Hi : common_len pre (pre ++ r) = length pre).
  { pose proof (common_len_app pre [] r) as H.
    rewrite app_nil_r in H. rewrite H. simpl. lia. }
  rewrite Hi, Nat.sub_diag, skipn_app, skipn_all, Nat.sub_diag. simpl.
  destruct r; [congruence | reflexivity].
Qed.

(** ** The file column outside Jekyll rendering *)

(** C7 at the spec's example.  In [update_jekyll_readmes.py] the loop
    variable hides the target, so the link is made relative to the changed
    file's own directory and is its bare name; [update_readmes.py] renders
    the row of the spec.  Both hold for every working directory. *)
Theorem jekyll_script_row_link_is_bare_name (cwd : str) :
  Jekyll.render_row cwd false (lit "docs/sub/file.py", example_info)
  = lit "| [file.py](file.py) | 2024-01-02 | A | [fix bug](u) |" ++ nl
  /\ Readmes.render_row cwd (lit "docs/readme.md")
       (lit "docs/sub/file.py", example_info)
     = lit "| [file.py](sub/file.py) | 2024-01-02 | A | [fix bug](u) |" ++ nl.
Proof.
  set (st := fold_left norm_step (split_sep cwd) []).
  assert (Hfile : abs_comps cwd (lit "docs/sub/file.py")
                  = rev st ++ [lit "docs"; lit "sub"; lit "file.py"]).
  { rewrite abs_comps_relative by reflexivity. fold st.
    change (fold_left norm_step (split_sep (lit "docs/sub/file.py")) st)
      with (lit "file.py" :: lit "sub" :: lit "docs" :: st).
    simpl rev. rewrite <- !app_assoc. reflexivity. }
  assert (Hsub : abs_comps cwd (lit "docs/sub")
                 = rev st ++ [lit "docs"; lit "sub"]).
  { rewrite abs_comps_relative by reflexivity. fold st.
    change (fold_left norm_step (split_sep (lit "docs/sub")) st)
      with (lit "sub" :: lit "docs" :: st).
    simpl rev. rewrite <- !app_assoc. reflexivity. }
  assert (Hdocs : abs_comps cwd (lit "docs") = rev st ++ [lit "docs"]).
  { rewrite abs_comps_relative by reflexivity. fold st. reflexivity. }
  split.
  - unfold Jekyll.render_row. cbn [fst snd].
    change (dirname (lit "docs/sub/file.py")) with (lit "docs/sub").
    cbv iota beta. change (lit "docs/sub") with ("d"%char :: lit "ocs/sub") at 1.
    cbv iota.
    rewrite (@relpath_descend cwd (lit "docs/sub/file.py") (lit "docs/sub")
               (rev st ++ [lit "docs"; lit "sub"]) [lit "file.py"]);
      [reflexivity | exact Hsub | | discriminate].
    rewrite Hfile, <- app_assoc. reflexivity.
  - unfold Readmes.render_row, Readmes.file_link. cbn [fst snd].
    change (dirname (lit "docs/readme.md")) with (lit "docs").
    change (lit "docs") with ("d"%char :: lit "ocs") at 1. cbv iota.
    rewrite (@relpath_descend cwd (lit "docs/sub/file.py") (lit "docs")
               (rev st ++ [lit "docs"]) [lit "sub"; lit "file.py"]);
      [reflexivity | exact Hdocs | | discriminate].
    rewrite Hfile, <- app_assoc. reflexivity.
Qed.

(** ** The file system *)

Lemma write_file_ok (fs fs' : filesystem) (p c : str) :
  write_file fs p c = Ok fs' -> fs' = set_file fs p c.
Proof.
  unfold write_file. destruct (str_eqb p []); [discriminate|].
  destruct (isdir fs p); [discriminate|].
  destruct (dict_get p fs) as [[x|]|]; try discriminate; try congruence.
  destruct (through_file fs p); [discriminate|].
  destruct (parent_is_dir fs p); congruence.
Qed.

Lemma set_file_get (fs : filesystem) (p c q : str) :
  dict_get q (set_file fs p c)
  = if str_eqb p q then Some (File c) else dict_get q fs.
Proof. unfold set_file; cbn [file_map]. apply dict_get_set. Qed.

Lemma starts_with_refl (s : str) : starts_with s s = true.
Proof. rewrite <- (app_nil_r s) at 1. apply starts_with_app. Qed.

Lemma drop_while_suffix (f : ascii -> bool) (l : str) :
  exists pre, l = pre ++ drop_while f l.
Proof.
  induction l as [|c l [pre IH]]; [exists []; reflexivity|]. simpl.
  destruct (f c); [|exists []; reflexivity].
  exists (c :: pre). simpl. f_equal. exact IH.
Qed.

Lemma basename_length (p : str) : length (basename p) <= length p.
Proof.
  induction p as [|c p IH]; [reflexivity|]. cbn [basename].
  destruct (existsb is_sep p); [simpl; lia|].
  destruct (is_sep c); simpl; lia.
Qed.

(** The directory part is a leading part of the path, and with the last
    component it is no longer than the path. *)
Lemma dirname_facts (p : str) :
  starts_with p (dirname p) = true
  /\ length (dirname p) + length (basename p) <= length p.
Proof.
  unfold dirname. pose proof (basename_length p) as Hb.
  set (k := length p - length (basename p)).
  assert (Hk : length (firstn k p) = k) by (apply firstn_length_le; lia).
  assert (Hp : starts_with p (firstn k p) = true).
  { rewrite <- (firstn_skipn k p) at 1. apply starts_with_app. }
  destruct (forallb is_sep (firstn k p)); [split; [exact Hp | lia]|].
  destruct (drop_while_suffix is_sep (rev (firstn k p))) as [pre Hpre].
  assert (Hh : firstn k p = rev (drop_while is_sep (rev (firstn k p)))
                            ++ rev pre).
  { rewrite <- rev_app_distr, <- Hpre, rev_involutive. reflexivity. }
  split.
  - apply (starts_with_trans _ _ _ Hp). rewrite Hh at 1.
    apply starts_with_app.
  - apply (f_equal (@length ascii)) in Hh. rewrite length_app in Hh. lia.
Qed.

Lemma mkdir_ok (fs fs' : filesystem) (name : str) :
  mkdir fs name = Ok fs' ->
  fs' = add_dir fs name /\ path_exists fs name = false.
Proof.
  unfold mkdir. destruct (str_eqb name []); [discriminate|].
  destruct (path_exists fs name); [discriminate|].
  destruct (through_file fs name); [discriminate|].
  destruct (parent_is_dir fs name); [|discriminate].
  intros H; inversion H. split; reflexivity.
Qed.

Lemma isdir_add_dir (fs : filesystem) (name d : str) :
  isdir (add_dir fs name) d = true <-> isdir fs d = true \/ d = name.
Proof.
  unfold isdir, add_dir. cbn [dirs existsb].
  rewrite !orb_true_iff, (str_eqb_eq d name). tauto.
Qed.

Lemma grown_refl (name : str) (fs : filesystem) : grown_towards name fs fs.
Proof. repeat split; auto. Qed.

Lemma grown_exists (name : str) (fs fs' : filesystem) (d : str) :
  grown_towards name fs fs' ->
  path_exists fs d = true -> path_exists fs' d = true.
Proof.
  intros (Hf & Hd & _). unfold path_exists.
  rewrite !orb_true_iff, Hf. intros [H | H]; [left; apply Hd; exact H | auto].
Qed.

Lemma grown_trans (head name : str) (fs fs1 fs2 : filesystem) :
  starts_with name head = true ->
  grown_towards head fs fs1 -> grown_towards name fs1 fs2 ->
  grown_towards name fs fs2.
Proof.
  intros Hh H1 H2. pose proof (@grown_exists head fs fs1) as Hex.
  pose proof H1 as H1'.
  destruct H1 as (Hf1 & Hd1 & Hn1), H2 as (Hf2 & Hd2 & Hn2).
  split; [congruence|]. split; [auto|].
  intros d Hd. destruct (Hn2 d Hd) as [H | [H Hp]].
  - destruct (Hn1 d H) as [H' | [H' Hp']]; [left; exact H'|].
    right. split; [exact H'|]. exact (starts_with_trans _ _ _ Hh Hp').
  - right. split; [|exact Hp].
    destruct (path_exists fs d) eqn:E; [|reflexivity].
    rewrite (Hex d H1' E) in H. discriminate.
Qed.

Lemma mkdir_exist_ok_grown (fs fs' : filesystem) (name : str) :
  mkdir_exist_ok fs name = Ok fs' -> grown_towards name fs fs'.
Proof.
  unfold mkdir_exist_ok. destruct (mkdir fs name) as [fs2|e] eqn:E.
  - intros H; inversion H; subst fs2. apply mkdir_ok in E as [-> Hnew].
    split; [reflexivity|]. split.
    + intros d Hd. apply isdir_add_dir. left; exact Hd.
    + intros d Hd. apply isdir_add_dir in Hd as [Hd | ->]; [left; exact Hd|].
      right. split; [exact Hnew | apply starts_with_refl].
  - destruct (isdir fs name); [|discriminate].
    intros H; inversion H. apply grown_refl.
Qed.

Lemma makedirs_split_head (name : str) :
  starts_with name (fst (makedirs_split name)) = true.
Proof.
  unfold makedirs_split.
  destruct (str_eqb (basename name) []); cbn [fst];
    [|apply dirname_facts].
  apply (starts_with_trans _ _ _ (proj1 (dirname_facts name))).
  apply dirname_facts.
Qed.

Lemma makedirs_aux_grown (fuel : nat) (fs fs' : filesystem) (name : str) :
  makedirs_aux fuel fs name = Ok fs' -> grown_towards name fs fs'.
Proof.
  revert fs fs' name; induction fuel as [|fuel IH]; intros fs fs' name;
    cbn [makedirs_aux];
    destruct (negb (str_eqb (fst (makedirs_split name)) [])
              && negb (str_eqb (snd (makedirs_split name)) [])
              && negb (path_exists fs (fst (makedirs_split name))));
    try (apply mkdir_exist_ok_grown); [discriminate|].
  destruct (makedirs_aux fuel fs (fst (makedirs_split name)))
    as [fs1|e] eqn:E.
  - apply IH in E.
    assert (E0 : grown_towards name fs fs1)
      by (apply (@grown_trans _ name fs fs1 fs1 (makedirs_split_head name) E),
          grown_refl).
    destruct (str_eqb (snd (makedirs_split name)) (lit ".")).
    + intros H; inversion H; subst fs1.
      exact E0.
    + intros H. apply mkdir_exist_ok_grown in H.
      exact (@grown_trans _ name fs fs1 fs' (makedirs_split_head name) E H).
  - destruct e; try discriminate.
    destruct (str_eqb (snd (makedirs_split name)) (lit "."));
      [intros H; inversion H; apply grown_refl
      | apply mkdir_exist_ok_grown].
Qed.

Lemma makedirs_grown (fs fs' : filesystem) (name : str) :
  makedirs fs name = Ok fs' -> grown_towards name fs fs'.
Proof. apply makedirs_aux_grown. Qed.

Lemma makedirs_split_shorter (name : str) :
  snd (makedirs_split name) <> [] ->
  length (fst (makedirs_split name)) < length name.
Proof.
  unfold makedirs_split.
  destruct (str_eqb (basename name) []); cbn [fst snd]; intros G.
  - pose proof (proj2 (dirname_facts (dirname name))).
    pose proof (proj2 (dirname_facts name)).
    destruct (basename (dirname name)); [congruence | simpl in *; lia].
  - pose proof (proj2 (dirname_facts name)).
    destruct (basename name); [congruence | simpl in *; lia].
Qed.

(** Fuel beyond the length of the name changes nothing. *)
Lemma makedirs_aux_fuel (n m : nat) (fs : filesystem) (name : str) :
  length name <= n -> length name <= m ->
  makedirs_aux n fs name = makedirs_aux m fs name.
Proof.
  revert m fs name; induction n as [|n IH]; intros m fs name Hn Hm.
  - destruct name; [|simpl in Hn; lia].
    destruct m; reflexivity.
  - cbn [makedirs_aux].
    destruct (negb (str_eqb (fst (makedirs_split name)) [])
              && negb (str_eqb (snd (makedirs_split name)) [])
              && negb (path_exists fs (fst (makedirs_split name)))) eqn:G.
    + pose proof G as G0.
      apply andb_true_iff in G as [G _]. apply andb_true_iff in G as [_ G].
      apply negb_true_iff, str_eqb_neq in G.
      pose proof (makedirs_split_shorter name G) as Hlt.
      destruct m as [|m]; [lia|]. cbn [makedirs_aux]. rewrite G0.
      rewrite (IH m fs (fst (makedirs_split name))) by lia. reflexivity.
    + destruct m; cbn [makedirs_aux]; rewrite G; reflexivity.
Qed.

Lemma starts_with_length (s p : str) :
  starts_with s p = true -> length p <= length s.
Proof.
  intros H. destruct (starts_with_inv _ _ H) as [t ->].
  rewrite length_app. lia.
Qed.

Lemma mkdir_exist_ok_new (fs : filesystem) (name : str) :
  path_exists fs name = false ->
  mkdir_exist_ok fs name <> Raise FileExistsError.
Proof.
  intros Hnew. unfold mkdir_exist_ok, mkdir. rewrite Hnew.
  destruct (str_eqb name []); [destruct (isdir fs name); discriminate|].
  destruct (through_file fs name); [destruct (isdir fs name); discriminate|].
  destruct (parent_is_dir fs name); [discriminate|].
  destruct (isdir fs name); discriminate.
Qed.

(** The recursive call of [os.makedirs] is made on a name at which nothing
    exists, and then it does not end in [FileExistsError]: the handler for
    that exception is never entered. *)
Lemma makedirs_aux_new (fuel : nat) (fs : filesystem) (name : str) :
  path_exists fs name = false ->
  makedirs_aux fuel fs name <> Raise FileExistsError.
Proof.
  revert fs name; induction fuel as [|fuel IH]; intros fs name Hnew;
    cbn [makedirs_aux];
    destruct (negb (str_eqb (fst (makedirs_split name)) [])
              && negb (str_eqb (snd (makedirs_split name)) [])
              && negb (path_exists fs (fst (makedirs_split name)))) eqn:G;
    try (apply mkdir_exist_ok_new; exact Hnew); [discriminate|].
  apply andb_true_iff in G as [G Ghead]. apply andb_true_iff in G as [_ G].
  apply negb_true_iff, str_eqb_neq in G. apply negb_true_iff in Ghead.
  pose proof (makedirs_split_shorter name G) as Hlt.
  pose proof (IH fs _ Ghead) as Hrec.
  destruct (makedirs_aux fuel fs (fst (makedirs_split name)))
    as [fs1|e] eqn:E.
  - destruct (str_eqb (snd (makedirs_split name)) (lit "."));
      [discriminate|].
    apply mkdir_exist_ok_new. apply makedirs_aux_grown in E.
    destruct E as (Hfiles & _ & Hdirs).
    unfold path_exists in Hnew |- *. apply orb_false_iff in Hnew as [Hd He].
    rewrite Hfiles, He, orb_false_r.
    destruct (isdir fs1 name) eqn:E1; [|reflexivity].
    destruct (Hdirs name E1) as [H | [_ H]]; [congruence|].
    apply starts_with_length in H. lia.
  - destruct e; try discriminate. congruence.
Qed.

(** ** Where a run writes *)

Lemma last_In (A : Type) (l : list A) (d : A) : l <> [] -> In (last l d) l.
Proof.
  induction l as [|x l IH]; intros H; [congruence|].
  destruct l as [|y l]; [left; reflexivity|].
  right. apply IH. discriminate.
Qed.

(** In [update_readmes.py] a run that finishes has written the target, and
    every other path is as before. *)
Lemma readmes_update_frame (cwd : str) (fs fs' : filesystem) (p : str)
  (cm : dict info) (now : datetime) :
  Readmes.update_readme cwd fs p cm now = Ok fs' ->
  (exists new_content, dict_get p fs' = Some (File new_content))
  /\ forall q, q <> p -> dict_get q fs' = dict_get q fs.
Proof.
  unfold Readmes.update_readme, bind.
  destruct (Readmes.read_or_placeholder fs p) as [content|e]; [|discriminate].
  destruct (splice content _) as [new_content|e]; [|discriminate].
  intros H. apply write_file_ok in H. subst fs'. split.
  - exists new_content. rewrite set_file_get, str_eqb_refl. reflexivity.
  - intros q Hq. rewrite set_file_get.
    apply not_eq_sym in Hq. apply str_eqb_neq in Hq. rewrite Hq. reflexivity.
Qed.

(** C1 in [update_jekyll_readmes.py]: the loop variable of the row loop is
    named like the parameter that holds the target, so whenever the scoped
    list is not empty the run writes the spliced text to the last changed
    file listed and leaves the file of the target as it was. *)
Theorem jekyll_update_writes_elsewhere (cwd : str) (fs fs' : filesystem)
  (file_path : str) (cm : dict info) (now : datetime) :
  get_directory_changes file_path cm <> [] ->
  Jekyll.update_file cwd fs file_path cm now = Ok fs' ->
  let written :=
    Jekyll.path_after_loop file_path (get_directory_changes file_path cm) in
  written <> file_path
  /\ dict_get file_path fs' = dict_get file_path fs
  /\ exists new_content, dict_get written fs' = Some (File new_content).
Proof.
  intros Hne Hrun written.
  assert (Hw : written <> file_path).
  { pose proof (scoped_entries_not_target file_path cm) as Hall.
    rewrite Forall_forall in Hall. apply Hall.
    unfold written, Jekyll.path_after_loop. apply last_In; exact Hne. }
  split; [exact Hw|].
  unfold Jekyll.update_file, bind in Hrun.
  destruct (Jekyll.read_or_placeholder fs file_path) as [content|e];
    [|discriminate].
  destruct (splice content _) as [new_content|e]; [|discriminate].
  fold written in Hrun.
  destruct (makedirs fs (or_default (dirname written) (lit ".")))
    as [fs_made|e] eqn:Em; [|discriminate].
  apply write_file_ok in Hrun. apply makedirs_grown in Em as (Hfiles & _).
  subst fs'. split.
  - rewrite set_file_get. apply str_eqb_neq in Hw. rewrite Hw, Hfiles.
    reflexivity.
  - exists new_content. rewrite set_file_get, str_eqb_refl. reflexivity.
Qed.

Lemma jekyll_update_writes_elsewhere_witness :
  exists fs',
    Jekyll.update_file (lit "/repo") example_fs (lit "docs/readme.md")
      example_changes jan2 = Ok fs'
    /\ dict_get (lit "docs/readme.md") fs' = Some (File (lit "# Docs"))
    /\ exists new_content,
         dict_get (lit "docs/sub/file.py") fs' = Some (File new_content).
Proof.
  destruct (Jekyll.update_file (lit "/repo") example_fs (lit "docs/readme.md")
              example_changes jan2) as [fs'|e] eqn:E;
    [|vm_compute in E; discriminate].
  exists fs'. split; [reflexivity|].
  assert (Hne : get_directory_changes (lit "docs/readme.md") example_changes
                <> []) by (vm_compute; discriminate).
  destruct (@jekyll_update_writes_elsewhere (lit "/repo") example_fs fs'
              (lit "docs/readme.md") example_changes jan2 Hne E)
    as (_ & H2 & H3).
  split; [rewrite H2; reflexivity | exact H3].
Defined.

(** ** Splicer: when the replacement goes wrong *)

(** C8 at two inputs with both markers present.  A commit message with a
    backslash before a letter makes [re.sub] reject the fragment as a
    replacement template, and the run raises, in both scripts; and when the
    end marker comes before the start marker nothing matches, so the text
    comes back unchanged, without the fragment. *)
Theorem splice_fails_with_both_markers :
  Readmes.update_readme (lit "/repo") sectioned_fs (lit "docs/README.md")
    regex_changes jan2 = Raise ReError
  /\ Jekyll.update_file (lit "/repo") sectioned_fs (lit "docs/README.md")
       regex_changes jan2 = Raise ReError
  /\ splice (END_MARKER ++ nl ++ START_MARKER) (fragment [] jan2)
     = Ok (END_MARKER ++ nl ++ START_MARKER)
  /\ contains (fragment [] jan2) (END_MARKER ++ nl ++ START_MARKER) = false.
Proof.
  repeat split; vm_compute; reflexivity.
Qed.

(** ** Reading the target *)

Lemma splice_raises_only_re (content F : str) (e : exn) :
  splice content F = Raise e -> e = ReError.
Proof.
  unfold splice, re_sub.
  destruct (contains START_MARKER content && contains END_MARKER content);
    [|discriminate].
  destruct (parse_template _ F); congruence.
Qed.





(** * Further properties of the two scripts *)

(** ** Exclusion filter *)

(** X1: [should_exclude] holds exactly of the paths that start with
    [.git] and of [LICENSE] (with or without one final newline); the Jekyll
    script adds the paths below [_site/], [.sass-cache/], [.jekyll-cache/]
    and [vendor/].  The patterns for [.github] and [.gitignore] add
    nothing, and a [.git] directory further down is not excluded. *)
Theorem should_exclude_exactly (p : str) :
  (should_exclude Readmes.EXCLUDE_PATTERNS p = true <->
   starts_with p (lit ".git") = true
   \/ p = lit "LICENSE" \/ p = lit "LICENSE" ++ nl)
  /\ (should_exclude Jekyll.EXCLUDE_PATTERNS p = true <->
      starts_with p (lit ".git") = true
      \/ p = lit "LICENSE" \/ p = lit "LICENSE" ++ nl
      \/ starts_with p (lit "_site/") = true
      \/ starts_with p (lit ".sass-cache/") = true
      \/ starts_with p (lit ".jekyll-cache/") = true
      \/ starts_with p (lit "vendor/") = true).
Proof.
  assert (Hgithub : starts_with p (lit ".github") = true ->
                    starts_with p (lit ".git") = true)
    by (intros H; apply (starts_with_trans _ _ _ H); reflexivity).
  assert (Hignore : forall t, p = lit ".gitignore" ++ t ->
                              starts_with p (lit ".git") = true)
    by (intros t ->; reflexivity).
  unfold should_exclude, Readmes.EXCLUDE_PATTERNS, Jekyll.EXCLUDE_PATTERNS.
  cbn [existsb pattern_match].
  rewrite !orb_true_iff, !str_eqb_eq. split; split.
  - intros [H | [H | [[H | H] | [[H | H] | H]]]]; auto; try discriminate.
    + left; apply (Hignore []); rewrite app_nil_r; exact H.
    + left; apply (Hignore nl); exact H.
  - intros [H | [H | H]]; auto.
  - intros [H | [H | [[H | H] | [[H | H] | [H | [H | [H | [H | H]]]]]]]];
      auto 8; try discriminate.
    + left; apply (Hignore []); rewrite app_nil_r; exact H.
    + left; apply (Hignore nl); exact H.
  - intros [H | [H | [H | [H | [H | [H | H]]]]]]; auto 12.
Qed.

(** ** Change aggregator: what the map holds *)

Lemma first_line_has_no_newline (m : str) : ~ In "010"%char (first_line m).
Proof.
  induction m as [|c m IH]; simpl; [tauto|].
  destruct (Ascii.eqb c "010") eqn:E; simpl; [tauto|].
  intros [H | H]; [|tauto]. subst c. rewrite Ascii.eqb_refl in E. discriminate.
Qed.

Lemma visits_sound (pats : list pattern) (p : str) (r : info)
  (obs : list (commit * str)) (fu : dict info) :
  dict_get p (fold_left (visit_obs pats) obs fu) = Some r ->
  dict_get p fu = Some r
  \/ (should_exclude pats p = false
      /\ exists c, In (c, p) obs /\ r = record_of c).
Proof.
  revert fu; induction obs as [|[c f] obs IH]; intros fu H; simpl in H;
    [left; exact H|].
  destruct (IH _ H) as [H0 | (Hk & c' & Hin & Hr)].
  - unfold visit_obs, track in H0. cbn [fst snd] in H0.
    destruct (should_exclude pats f) eqn:Ex; [left; exact H0|].
    assert (Hset : dict_get p (dict_set f (record_of c) fu) = Some r ->
                   dict_get p fu = Some r
                   \/ (should_exclude pats p = false
                       /\ exists c0, In (c0, p) ((c, f) :: obs)
                                     /\ r = record_of c0)).
    { rewrite dict_get_set. destruct (str_eqb f p) eqn:Ef; [|auto].
      apply str_eqb_eq in Ef; subst f. intros Hr. right. split; [exact Ex|].
      exists c. split; [left; reflexivity | congruence]. }
    destruct (dict_get f fu) as [old|];
      [destruct (dt_gtb (commit_date c) (date old))|]; auto.
  - right. split; [exact Hk|]. exists c'. split; [right; exact Hin | exact Hr].
Qed.

(** X2: every record of the map made by [get_repo_changes] is stored under
    a path that is not excluded and that one of the first 100 commits
    touches; it is the record of such a commit, and its message is a
    single line. *)
Theorem aggregator_records_are_sound (pats : list pattern)
  (commits : list commit) (p : str) (r : info) :
  dict_get p (get_repo_changes pats commits) = Some r ->
  should_exclude pats p = false
  /\ (exists c, In c (firstn 100 commits) /\ In p (files c)
                /\ r = record_of c)
  /\ ~ In "010"%char (commit_message r).
Proof.
  unfold get_repo_changes. rewrite loops_as_visits. intros H.
  destruct (visits_sound _ _ _ _ H) as [H0 | (Hk & c & Hin & Hr)];
    [discriminate|].
  apply in_observations in Hin as [Hc Hp].
  split; [exact Hk|]. split; [exists c; auto|].
  subst r. apply first_line_has_no_newline.
Qed.

Lemma aggregator_records_are_sound_witness :
  should_exclude Readmes.EXCLUDE_PATTERNS (lit "src/a.py") = false
  /\ (exists c, In c (firstn 100 [commit_new; commit_old])
                /\ In (lit "src/a.py") (files c)
                /\ record_of commit_new = record_of c)
  /\ ~ In "010"%char (commit_message (record_of commit_new)).
Proof.
  apply (@aggregator_records_are_sound Readmes.EXCLUDE_PATTERNS
           [commit_new; commit_old] (lit "src/a.py") (record_of commit_new)).
  reflexivity.
Defined.

(** ** Directory scoper: which entries are listed *)

Lemma dict_set_new (V : Type) (k : str) (v : V) (m : dict V) :
  dict_get k m = None -> dict_set k v m = m ++ [(k, v)].
Proof.
  induction m as [|[k0 v0] m IH]; simpl; [reflexivity|].
  destruct (str_eqb k0 k); [discriminate|].
  intros H; rewrite IH by exact H. reflexivity.
Qed.

(** On a map with unique keys the filtering loop is a filter. *)
Lemma scope_fold_filter (directory : str) (cm acc : dict info) :
  NoDup (keys acc ++ keys cm) ->
  fold_left (scope_step directory) cm acc
  = acc ++ filter (in_scope directory) cm.
Proof.
  revert acc; induction cm as [|[k v] cm IH]; intros acc Hnd; simpl;
    [rewrite app_nil_r; reflexivity|].
  unfold keys in Hnd. simpl in Hnd.
  unfold scope_step at 2, in_scope. cbn [fst snd].
  destruct (starts_with k (directory_prefix directory)); cbn [andb].
  - destruct (str_eqb k directory); cbn [negb].
    + apply IH. exact (NoDup_remove_1 _ _ _ Hnd).
    + rewrite dict_set_new.
      * rewrite IH; [rewrite <- app_assoc; reflexivity|].
        unfold keys. rewrite map_app, <- app_assoc. exact Hnd.
      * apply dict_get_None_keys. intros Hin.
        apply NoDup_remove_2 in Hnd. apply Hnd, in_or_app. left; exact Hin.
  - apply IH. exact (NoDup_remove_1 _ _ _ Hnd).
Qed.

Lemma insert_desc_perm (x : str * info) (l : list (str * info)) :
  Permutation (insert_desc x l) (x :: l).
Proof.
  induction l as [|y l IH]; simpl; [apply Permutation_refl|].
  destruct (dt_gtb (date (snd y)) (date (snd x))).
  - apply perm_trans with (y :: x :: l);
      [apply perm_skip; exact IH | apply perm_swap].
  - apply Permutation_refl.
Qed.

Lemma sorted_desc_perm (l : list (str * info)) :
  Permutation (sorted_desc l) l.
Proof.
  induction l as [|x l IH]; simpl; [apply perm_nil|].
  apply perm_trans with (x :: sorted_desc l);
    [apply insert_desc_perm | apply perm_skip; exact IH].
Qed.

(** In a sorted list, what a slice keeps is before what it drops. *)
Lemma sorted_slice (A : Type) (R : A -> A -> Prop) (l : list A) (n : nat)
  (x y : A) :
  StronglySorted R l -> In x (firstn n l) -> In y (skipn n l) -> R x y.
Proof.
  intros Hs; revert n; induction Hs as [|a l Hl IH Ha]; intros n Hx Hy.
  - rewrite firstn_nil in Hx. destruct Hx.
  - destruct n as [|n]; [destruct Hx|]. simpl in Hx, Hy.
    destruct Hx as [<- | Hx]; [|exact (IH n Hx Hy)].
    rewrite Forall_forall in Ha. apply Ha.
    rewrite <- (firstn_skipn n l). apply in_or_app. right; exact Hy.
Qed.

(** X3: on a change map (unique paths), every entry listed for a target
    is an entry of the map below the target's directory and is not the
    target; and an entry of that kind that is not listed is left out only
    because ten entries at least as recent are listed. *)
Theorem scoper_lists_the_most_recent (directory : str) (cm : dict info) :
  NoDup (keys cm) ->
  let r := get_directory_changes directory cm in
  (forall e, In e r -> In e cm /\ in_scope directory e = true)
  /\ (forall e, In e cm -> in_scope directory e = true ->
                In e r
                \/ (length r = 10 /\ forall x, In x r -> newer_or_equal x e)).
Proof.
  intros Hnd. cbv zeta. unfold get_directory_changes.
  rewrite (scope_fold_filter directory cm []) by exact Hnd.
  simpl app.
  set (scoped := filter (in_scope directory) cm).
  assert (Hin : forall e, In e (sorted_desc scoped)
                          <-> In e cm /\ in_scope directory e = true).
  { intros e. rewrite <- filter_In. fold scoped. split; intros H.
    - exact (Permutation_in _ (sorted_desc_perm scoped) H).
    - exact (Permutation_in _ (Permutation_sym (sorted_desc_perm scoped)) H). }
  split.
  - intros e He. apply Hin.
    rewrite <- (firstn_skipn NUM_FILES (sorted_desc scoped)).
    apply in_or_app. left; exact He.
  - intros e He Hs. assert (H : In e (sorted_desc scoped)) by (apply Hin; auto).
    rewrite <- (firstn_skipn NUM_FILES (sorted_desc scoped)) in H.
    apply in_app_or in H as [H | H]; [left; exact H|]. right. split.
    + apply firstn_length_le.
      destruct (Nat.le_gt_cases NUM_FILES (length (sorted_desc scoped)))
        as [Hle | Hgt]; [exact Hle|].
      rewrite skipn_all2 in H by lia. destruct H.
    + intros x Hx.
      exact (sorted_slice NUM_FILES x e (sorted_desc_sorted scoped) Hx H).
Qed.

Lemma scoper_lists_the_most_recent_witness :
  (forall e, In e (get_directory_changes (lit "docs/readme.md") example_changes) ->
             In e example_changes
             /\ in_scope (lit "docs/readme.md") e = true)
  /\ (forall e, In e example_changes ->
                in_scope (lit "docs/readme.md") e = true ->
                In e (get_directory_changes (lit "docs/readme.md")
                        example_changes)
                \/ (length (get_directory_changes (lit "docs/readme.md")
                              example_changes) = 10
                    /\ forall x,
                         In x (get_directory_changes (lit "docs/readme.md")
                                 example_changes) ->
                         newer_or_equal x e)).
Proof.
  apply (@scoper_lists_the_most_recent (lit "docs/readme.md") example_changes).
  repeat constructor. simpl. tauto.
Defined.

(** ** Splicer: replacing the section *)

Lemma end_marker_shape : END_MARKER = "<"%char :: tl END_MARKER.
Proof. reflexivity. Qed.

Lemma end_marker_tail_foreign : ~ In "<"%char (tl END_MARKER).
Proof.
  assert (H : forallb (fun c => negb (Ascii.eqb c "<")) (tl END_MARKER) = true)
    by reflexivity.
  rewrite forallb_forall in H. intros Hin. specialize (H _ Hin).
  rewrite Ascii.eqb_refl in H. discriminate.
Qed.

Lemma match_len_no_start (s : str) :
  starts_with s START_MARKER = false -> match_len s = None.
Proof. intros H. unfold match_len. rewrite H. reflexivity. Qed.

(** The scan copies a stretch in which no start marker begins. *)
Lemma sub_untouched_prefix (F x r : str) :
  (forall j, j < length x ->
             starts_with (skipn j (x ++ r)) START_MARKER = false) ->
  sub_aux (map TLit F) 0 (x ++ r) = x ++ sub_aux (map TLit F) 0 r.
Proof.
  induction x as [|c x IH]; intros H; [reflexivity|].
  change ((c :: x) ++ r) with (c :: (x ++ r)).
  rewrite sub_nomatch.
  - rewrite IH; [reflexivity|]. intros j Hj. apply (H (S j)). simpl; lia.
  - apply match_len_no_start. apply (H 0). simpl; lia.
Qed.

Lemma sub_no_start (F s : str) :
  contains START_MARKER s = false -> sub_aux (map TLit F) 0 s = s.
Proof.
  intros H. rewrite <- (app_nil_r s) at 1.
  rewrite sub_untouched_prefix; [simpl; apply app_nil_r|].
  intros j _. rewrite app_nil_r. apply no_occurrence; exact H.
Qed.

(** The first occurrence of [u] in [x ++ u ++ r] is the one shown, when
    none begins inside [x]. *)
Lemma find_first (u x r : str) :
  (forall j, j < length x -> starts_with (skipn j (x ++ u ++ r)) u = false) ->
  find u (x ++ u ++ r) = Some (length x).
Proof.
  induction x as [|c x IH]; intros H.
  - simpl app. pose proof (starts_with_app u r) as Hu.
    destruct (u ++ r); simpl; rewrite Hu; reflexivity.
  - change ((c :: x) ++ u ++ r) with (c :: (x ++ u ++ r)). cbn [find].
    pose proof (H 0 ltac:(simpl; lia)) as H0. simpl in H0. rewrite H0.
    rewrite IH; [reflexivity|]. intros j Hj. apply (H (S j)). simpl; lia.
Qed.

Lemma section_has_markers (pre body post : str) :
  contains START_MARKER (pre ++ START_MARKER ++ body ++ END_MARKER ++ post)
  = true
  /\ contains END_MARKER (pre ++ START_MARKER ++ body ++ END_MARKER ++ post)
     = true.
Proof.
  split; [apply contains_app_mid; reflexivity|].
  replace (pre ++ START_MARKER ++ body ++ END_MARKER ++ post)
    with ((pre ++ START_MARKER ++ body) ++ END_MARKER ++ post)
    by (rewrite <- !app_assoc; reflexivity).
  apply contains_app_mid; reflexivity.
Qed.

(** The scan on a text with one section. *)
Lemma sub_replaces_section (pre body post F : str) :
  contains START_MARKER pre = false ->
  contains END_MARKER body = false ->
  contains START_MARKER post = false ->
  sub_aux (map TLit F) 0 (pre ++ START_MARKER ++ body ++ END_MARKER ++ post)
  = pre ++ F ++ post.
Proof.
  intros Hpre Hbody Hpost. rewrite sub_untouched_prefix.
  - f_equal.
    assert (Hm : match_len (START_MARKER ++ body ++ END_MARKER ++ post)
                 = Some (length START_MARKER + length body
                         + length END_MARKER)).
    { unfold match_len. rewrite starts_with_app.
      rewrite skipn_app, skipn_all, Nat.sub_diag. cbn [skipn app].
      rewrite find_first; [reflexivity|].
      intros j Hj. rewrite end_marker_shape.
      change (("<"%char :: tl END_MARKER) ++ post)
        with ("<"%char :: (tl END_MARKER ++ post)).
      apply no_straddle;
        [exact Hj | apply end_marker_tail_foreign|].
      rewrite <- end_marker_shape. exact Hbody. }
    rewrite (sub_match F _ Hm).
    replace (skipn (length START_MARKER + length body + length END_MARKER)
               (START_MARKER ++ body ++ END_MARKER ++ post)) with post.
    + rewrite (sub_no_start F post Hpost). reflexivity.
    + replace (START_MARKER ++ body ++ END_MARKER ++ post)
        with ((START_MARKER ++ body ++ END_MARKER) ++ post)
        by (rewrite <- !app_assoc; reflexivity).
      rewrite skipn_app.
      replace (length START_MARKER + length body + length END_MARKER)
        with (length (START_MARKER ++ body ++ END_MARKER))
        by (rewrite !length_app; lia).
      rewrite skipn_all, Nat.sub_diag. reflexivity.
  - intros j Hj. rewrite start_marker_shape.
    change (("<"%char :: tl START_MARKER) ++ body ++ END_MARKER ++ post)
      with ("<"%char :: (tl START_MARKER ++ body ++ END_MARKER ++ post)).
    apply no_straddle; [exact Hj | apply start_marker_tail_foreign|].
    rewrite <- start_marker_shape. exact Hpre.
Qed.

(** X4: when the text is a part without start marker, then a section
    (start marker, a body without end marker, end marker), then a part
    without start marker, and the fragment holds no backslash, the splice
    puts the fragment in the place of the section and keeps both other
    parts as they are. *)
Theorem splice_replaces_section (pre body post F : str) :
  backslash_free F ->
  contains START_MARKER pre = false ->
  contains END_MARKER body = false ->
  contains START_MARKER post = false ->
  splice (pre ++ START_MARKER ++ body ++ END_MARKER ++ post) F
  = Ok (pre ++ F ++ post).
Proof.
  intros Hbs Hpre Hbody Hpost. unfold splice.
  destruct (section_has_markers pre body post) as [-> ->]. cbn [andb].
  rewrite re_sub_literal by exact Hbs.
  rewrite sub_replaces_section by assumption. reflexivity.
Qed.

Lemma splice_replaces_section_witness :
  splice (lit "# Docs" ++ nl ++ START_MARKER ++ (nl ++ lit "old" ++ nl)
          ++ END_MARKER ++ nl) (fragment [] jan1)
  = Ok ((lit "# Docs" ++ nl) ++ fragment [] jan1 ++ nl).
Proof.
  rewrite <- (@splice_replaces_section (lit "# Docs" ++ nl)
                (nl ++ lit "old" ++ nl) nl (fragment [] jan1));
    reflexivity.
Defined.

Lemma fragment_ends (rows : list str) (now : datetime) :
  exists x, fragment rows now = x ++ END_MARKER.
Proof.
  unfold fragment.
  eexists. rewrite !app_assoc. reflexivity.
Qed.

Lemma fragment_has_markers (rows : list str) (now : datetime) :
  contains START_MARKER (fragment rows now) = true
  /\ contains END_MARKER (fragment rows now) = true.
Proof.
  split.
  - apply (occurrence_contains _ _ 0), fragment_starts.
  - destruct (fragment_ends rows now) as [x ->].
    rewrite <- (app_nil_r END_MARKER) at 2.
    apply contains_app_mid. reflexivity.
Qed.

(** X5: whatever the target held, a splice of a rendered fragment without
    backslash gives a text that holds both markers, so the next run takes
    the replace branch. *)
Theorem splice_result_has_both_markers (content : str) (rows : list str)
  (now : datetime) :
  backslash_free (fragment rows now) ->
  exists out,
    splice content (fragment rows now) = Ok out
    /\ contains START_MARKER out = true
    /\ contains END_MARKER out = true.
Proof.
  intros Hbs. destruct (fragment_has_markers rows now) as [HS HE].
  set (F := fragment rows now) in *. unfold splice.
  destruct (contains START_MARKER content && contains END_MARKER content)
    eqn:Hc.
  - apply andb_true_iff in Hc as [Hs He].
    exists (sub_aux (map TLit F) 0 content).
    split; [apply re_sub_literal; exact Hbs|].
    destruct (sub_shape F content) as [-> | (a & b & ->)]; [auto|].
    split; apply contains_app_mid; assumption.
  - exists (content ++ nl ++ nl ++ F). split; [reflexivity|].
    replace (content ++ nl ++ nl ++ F)
      with ((content ++ nl ++ nl) ++ F ++ [])
      by (rewrite app_nil_r, <- !app_assoc; reflexivity).
    split; apply contains_app_mid; assumption.
Qed.

Lemma splice_result_has_both_markers_witness :
  exists out,
    splice START_MARKER (fragment [] jan1) = Ok out
    /\ contains START_MARKER out = true
    /\ contains END_MARKER out = true.
Proof.
  apply (@splice_result_has_both_markers START_MARKER [] jan1).
  reflexivity.
Defined.

(** ** Renderer: the empty list *)

Lemma char_absent (c : ascii) (s : str) :
  existsb (Ascii.eqb c) s = false -> ~ In c s.
Proof.
  intros H Hin.
  assert (E : existsb (Ascii.eqb c) s = true)
    by (apply existsb_exists; exists c; split;
        [exact Hin | apply Ascii.eqb_refl]).
  congruence.
Qed.

Lemma numeral_no_bar (u : Decimal.uint) :
  ~ In "|"%char (lit (NilZero.string_of_uint u)).
Proof.
  assert (H : forall v, ~ In "|"%char (lit (NilEmpty.string_of_uint v))).
  { induction v; simpl; try tauto; intros [E | E]; try discriminate E; auto. }
  destruct u; try apply H. simpl. intros [E | []]. discriminate E.
Qed.

Lemma zpad_no_bar (w : nat) (s : str) :
  ~ In "|"%char s -> ~ In "|"%char (zpad w s).
Proof.
  intros H Hin. unfold zpad in Hin. apply in_app_or in Hin as [Hin | Hin];
    [|tauto].
  apply repeat_spec in Hin. discriminate.
Qed.

Lemma datetime_str_no_bar (d : datetime) : ~ In "|"%char (datetime_str d).
Proof.
  unfold datetime_str, date_str, nat_str. rewrite !in_app_iff.
  pose proof (numeral_no_bar (Nat.to_uint (year d))).
  pose proof (@zpad_no_bar 2 _ (numeral_no_bar (Nat.to_uint (month d)))).
  pose proof (@zpad_no_bar 2 _ (numeral_no_bar (Nat.to_uint (day d)))).
  pose proof (@zpad_no_bar 2 _ (numeral_no_bar (Nat.to_uint (hour d)))).
  pose proof (@zpad_no_bar 2 _ (numeral_no_bar (Nat.to_uint (minute d)))).
  pose proof (@zpad_no_bar 2 _ (numeral_no_bar (Nat.to_uint (second d)))).
  unfold nat_str in *.
  assert (Hl : forall s, existsb (Ascii.eqb "|") (lit s) = false ->
                         ~ In "|"%char (lit s))
    by (intros s; apply char_absent).
  pose proof (Hl "-"%string eq_refl). pose proof (Hl " "%string eq_refl).
  pose proof (Hl ":"%string eq_refl).
  tauto.
Qed.

(** X6: when nothing is listed, both scripts render, whatever the time of
    the run, a fragment that holds the sentence for no changes and no
    vertical bar at all, hence no table. *)
Theorem empty_list_renders_no_table (cwd readme_path : str)
  (is_jekyll : bool) (now : datetime) :
  Readmes.recent_changes_content cwd readme_path [] now
  = Jekyll.recent_changes_content cwd is_jekyll [] now
  /\ contains (lit "*No recent changes found in this directory*")
       (Readmes.recent_changes_content cwd readme_path [] now) = true
  /\ ~ In "|"%char (Readmes.recent_changes_content cwd readme_path [] now).
Proof.
  split; [reflexivity|].
  change (Readmes.recent_changes_content cwd readme_path [] now)
    with (fragment [] now).
  split.
  - replace (fragment [] now)
      with ((START_MARKER ++ nl ++ lit "## Recently Updated Files" ++ nl ++ nl
             ++ lit "*Last updated: " ++ datetime_str now ++ lit "*" ++ nl
             ++ nl)
            ++ lit "*No recent changes found in this directory*"
            ++ (nl ++ nl ++ END_MARKER))
      by (unfold fragment; rewrite <- !app_assoc; reflexivity).
    apply contains_app_mid. reflexivity.
  - unfold fragment. rewrite !in_app_iff.
    pose proof (datetime_str_no_bar now).
    assert (Hl : forall s, existsb (Ascii.eqb "|") s = false ->
                           ~ In "|"%char s)
      by (intros s; apply char_absent).
    pose proof (Hl START_MARKER eq_refl). pose proof (Hl END_MARKER eq_refl).
    pose proof (Hl nl eq_refl).
    pose proof (Hl (lit "## Recently Updated Files") eq_refl).
    pose proof (Hl (lit "*Last updated: ") eq_refl).
    pose proof (Hl (lit "*") eq_refl).
    pose proof (Hl (lit "*No recent changes found in this directory*") eq_refl).
    tauto.
Qed.

(** ** Whole runs *)

Lemma str_eq_dec (a b : str) : {a = b} + {a <> b}.
Proof. apply list_eq_dec, ascii_dec. Qed.

Lemma readmes_run_frame (cwd : str) (cm : dict info)
  (clock : str -> datetime) (targets : list str)
  (state : result filesystem) (fs' : filesystem) :
  fold_left
    (fun st readme_path =>
       fs1 <- st ;;
       Readmes.update_readme cwd fs1 readme_path cm (clock readme_path))
    targets state = Ok fs' ->
  exists fs, state = Ok fs
    /\ (forall p, In p targets ->
                  exists content, dict_get p fs' = Some (File content))
    /\ (forall q, ~ In q targets -> dict_get q fs' = dict_get q fs).
Proof.
  revert state; induction targets as [|t ts IH]; intros state H; simpl in H.
  - exists fs'. split; [exact H|]. split; [intros p []|reflexivity].
  - destruct (IH _ H) as (fs1 & Hstep & Hin & Hout).
    destruct state as [fs|e]; [|discriminate]. unfold bind in Hstep.
    destruct (readmes_update_frame _ _ _ _ _ Hstep) as [[c Hc] Hframe].
    exists fs. split; [reflexivity|]. split.
    + intros p Hp. destruct (in_dec str_eq_dec p ts) as [Hts | Hts];
        [exact (Hin p Hts)|].
      destruct Hp as [<- | Hp]; [|contradiction].
      exists c. rewrite (Hout t Hts). exact Hc.
    + intros q Hq. rewrite Hout by (intros Hts; apply Hq; right; exact Hts).
      apply Hframe. intros ->. apply Hq. left; reflexivity.
Qed.

(** X7: a run of [update_all_readmes] that finishes leaves a text file at
    every README found by the walk and leaves every other path of the file
    system as it was. *)
Theorem update_all_readmes_frame (cwd : str)
  (walk : list (str * list str * list str)) (commits : list commit)
  (clock : str -> datetime) (fs fs' : filesystem) :
  Readmes.update_all_readmes cwd walk commits clock fs = Ok fs' ->
  (forall p, In p (Readmes.find_readme_files walk) ->
             exists content, dict_get p fs' = Some (File content))
  /\ (forall q, ~ In q (Readmes.find_readme_files walk) ->
                dict_get q fs' = dict_get q fs).
Proof.
  unfold Readmes.update_all_readmes. intros H.
  destruct (readmes_run_frame _ _ _ _ _ H) as (fs0 & E & Hin & Hout).
  inversion E; subst fs0. split; assumption.
Qed.

Lemma update_all_readmes_frame_witness :
  exists fs',
    Readmes.update_all_readmes (lit "/repo")
      [(lit ".", [lit "docs"], [lit "README.md"; lit "setup.py"]);
       (lit "./docs", [], [lit "readme.md"])]
      [commit_new; commit_old] (fun _ => jan2) small_checkout = Ok fs'
    /\ (exists content, dict_get (lit "docs/readme.md") fs'
                        = Some (File content))
    /\ dict_get (lit "setup.py") fs' = Some (File (lit "pass")).
Proof.
  destruct (Readmes.update_all_readmes (lit "/repo")
      [(lit ".", [lit "docs"], [lit "README.md"; lit "setup.py"]);
       (lit "./docs", [], [lit "readme.md"])]
      [commit_new; commit_old] (fun _ => jan2) small_checkout)
    as [fs'|e] eqn:E;
    [|vm_compute in E; discriminate].
  exists fs'. split; [reflexivity|].
  destruct (update_all_readmes_frame _ _ _ _ _ E) as [Hin Hout]. split.
  - apply Hin. vm_compute. right; left; reflexivity.
  - rewrite Hout; [reflexivity|]. vm_compute.
    intros [H | [H | []]]; discriminate H.
Defined.

(** X8: in [update_jekyll_readmes.py], when nothing is listed for the
    target the loop never rebinds [file_path]: a run that finishes has
    written the target and left every other file as it was; the
    directories that were there are still there, and a directory that the
    run has made is a leading part of the target's path at which nothing
    existed. *)
Theorem jekyll_update_without_entries (cwd : str) (fs fs' : filesystem)
  (file_path : str) (cm : dict info) (now : datetime) :
  get_directory_changes file_path cm = [] ->
  Jekyll.update_file cwd fs file_path cm now = Ok fs' ->
  (exists new_content, dict_get file_path fs' = Some (File new_content))
  /\ (forall q, q <> file_path -> dict_get q fs' = dict_get q fs)
  /\ (forall d, isdir fs d = true -> isdir fs' d = true)
  /\ (forall d, isdir fs' d = true ->
                isdir fs d = true
                \/ (path_exists fs d = false
                    /\ starts_with file_path d = true)).
Proof.
  intros Hnone. unfold Jekyll.update_file, bind. rewrite Hnone.
  cbn [Jekyll.path_after_loop last fst].
  destruct (Jekyll.read_or_placeholder fs file_path) as [content|e];
    [|discriminate].
  destruct (splice content _) as [new_content|e]; [|discriminate].
  destruct (makedirs fs (or_default (dirname file_path) (lit ".")))
    as [fs_made|e] eqn:Em; [|discriminate].
  intros H. apply write_file_ok in H.
  apply makedirs_grown in Em as (Hfiles & Hkeep & Hnew).
  subst fs'. split; [|split; [|split]].
  - exists new_content. rewrite set_file_get, str_eqb_refl. reflexivity.
  - intros q Hq. rewrite set_file_get, Hfiles.
    apply not_eq_sym in Hq. apply str_eqb_neq in Hq. rewrite Hq. reflexivity.
  - intros d Hd. exact (Hkeep d Hd).
  - intros d Hd. destruct (Hnew d Hd) as [H | [Hnot Hpre]];
      [left; exact H|]. right. split; [exact Hnot|].
    unfold or_default in Hpre. destruct (dirname file_path) eqn:Edir.
    + change (lit ".") with ["."%char] in Hpre.
      destruct d as [|c [|c' d]]; [reflexivity | |];
        cbn [starts_with] in Hpre.
      * rewrite andb_true_r in Hpre. apply Ascii.eqb_eq in Hpre. subst c.
        assert (Hdot : path_exists fs ["."%char] = true) by reflexivity.
        congruence.
      * rewrite andb_false_r in Hpre. discriminate Hpre.
    + rewrite <- Edir in Hpre.
      exact (starts_with_trans _ _ _ (proj1 (dirname_facts file_path)) Hpre).
Qed.

Lemma jekyll_update_without_entries_witness :
  exists fs',
    Jekyll.update_file (lit "/repo") empty_checkout (lit "my-Docs/readme.md")
      [] jan2 = Ok fs'
    /\ isdir fs' (lit "my-Docs") = true
    /\ (exists new_content,
          dict_get (lit "my-Docs/readme.md") fs' = Some (File new_content))
    /\ (forall q, q <> lit "my-Docs/readme.md" ->
                  dict_get q fs' = dict_get q empty_checkout)
    /\ (forall d, isdir empty_checkout d = true -> isdir fs' d = true)
    /\ (forall d, isdir fs' d = true ->
                  isdir empty_checkout d = true
                  \/ (path_exists empty_checkout d = false
                      /\ starts_with (lit "my-Docs/readme.md") d = true)).
Proof.
  eexists. split; [vm_compute; reflexivity|]. split; [reflexivity|].
  apply (@jekyll_update_without_entries (lit "/repo") empty_checkout _
           (lit "my-Docs/readme.md") [] jan2); reflexivity.
Defined.

(** ** The link of the file column in [update_readmes.py] *)

Lemma replace_char_gone (c : ascii) (new s : str) :
  ~ In c new -> ~ In c (replace [c] new s).
Proof.
  intros Hnew. unfold replace. induction s as [|x s IH]; simpl; [tauto|].
  destruct (Ascii.eqb c x) eqn:E; simpl.
  - rewrite in_app_iff. tauto.
  - intros [H | H]; [|tauto]. subst x. rewrite Ascii.eqb_refl in E.
    discriminate.
Qed.

(** X9: the link target rendered by [update_readmes.py] never holds a
    space, whatever the target and the changed file are. *)
Theorem readmes_link_has_no_space (cwd readme_path file_path : str) :
  ~ In " "%char (Readmes.file_link cwd readme_path file_path).
Proof.
  unfold Readmes.file_link. apply replace_char_gone.
  simpl. intuition discriminate.
Qed.

Lemma plain_comp_facts (c : str) :
  plain_comp c = true ->
  ~ In "/"%char c /\ c <> []
  /\ str_eqb c [] || str_eqb c (lit ".") = false
  /\ str_eqb c (lit "..") = false.
Proof.
  unfold plain_comp. rewrite !andb_true_iff, !negb_true_iff.
  intros [[[H1 H2] H3] H4]. repeat split.
  - intros Hin.
    assert (E : existsb is_sep c = true)
      by (apply existsb_exists; exists "/"%char; split;
          [exact Hin | reflexivity]).
    congruence.
  - intros ->. discriminate H2.
  - rewrite H2, H3. reflexivity.
  - exact H4.
Qed.

Lemma split_sep_no_sep (a : str) : ~ In "/"%char a -> split_sep a = [a].
Proof.
  induction a as [|c a IH]; intros H; simpl; [reflexivity|].
  destruct (Ascii.eqb c "/") eqn:E.
  - apply Ascii.eqb_eq in E. subst c. simpl in H. tauto.
  - rewrite IH by (simpl in H; tauto). reflexivity.
Qed.

Lemma split_sep_app (a b : str) :
  ~ In "/"%char a -> split_sep (a ++ "/"%char :: b) = a :: split_sep b.
Proof.
  induction a as [|c a IH]; intros H; simpl; [reflexivity|].
  destruct (Ascii.eqb c "/") eqn:E.
  - apply Ascii.eqb_eq in E. subst c. simpl in H. tauto.
  - rewrite IH by (simpl in H; tauto). reflexivity.
Qed.

Lemma join_cons (sep c c' : str) (rest : list str) :
  join sep (c :: c' :: rest) = c ++ sep ++ join sep (c' :: rest).
Proof. reflexivity. Qed.

(** Splitting a path made of components without slash gives the
    components back. *)
Lemma split_sep_join (comps : list str) :
  Forall (fun c => plain_comp c = true) comps -> comps <> [] ->
  split_sep (join (lit "/") comps) = comps.
Proof.
  induction 1 as [|c rest Hc Hrest IH]; intros Hne; [congruence|].
  destruct (plain_comp_facts _ Hc) as (Hsep & _).
  destruct rest as [|c' rest].
  - simpl. apply split_sep_no_sep; exact Hsep.
  - rewrite join_cons. change (lit "/" ++ join (lit "/") (c' :: rest))
      with ("/"%char :: join (lit "/") (c' :: rest)).
    rewrite split_sep_app by exact Hsep. rewrite IH by discriminate.
    reflexivity.
Qed.

Lemma join_app (sep : str) (d r : list str) :
  d <> [] -> r <> [] ->
  join sep (d ++ r) = join sep d ++ sep ++ join sep r.
Proof.
  intros Hd Hr. induction d as [|c d IH]; [congruence|].
  destruct d as [|c' d].
  - destruct r as [|x r]; [congruence|]. reflexivity.
  - change ((c :: c' :: d) ++ r) with (c :: c' :: (d ++ r)).
    rewrite !join_cons. change (c' :: d ++ r) with ((c' :: d) ++ r).
    rewrite IH by discriminate. rewrite <- !app_assoc. reflexivity.
Qed.

Lemma norm_steps_plain (comps st : list str) :
  Forall (fun c => plain_comp c = true) comps ->
  fold_left norm_step comps st = rev comps ++ st.
Proof.
  intros H; revert st; induction H as [|c rest Hc Hrest IH]; intros st;
    [reflexivity|].
  destruct (plain_comp_facts _ Hc) as (_ & _ & H1 & H2).
  simpl. unfold norm_step at 2. rewrite H1, H2, IH, <- app_assoc.
  reflexivity.
Qed.

Lemma join_head (comps : list str) :
  Forall (fun c => plain_comp c = true) comps -> comps <> [] ->
  exists a t, join (lit "/") comps = a :: t /\ a <> "/"%char.
Proof.
  intros H Hne. destruct H as [|c rest Hc Hrest]; [congruence|].
  destruct (plain_comp_facts _ Hc) as (Hsep & Hnil & _).
  destruct c as [|a c]; [congruence|].
  exists a. destruct rest as [|c' rest].
  - exists c. split; [reflexivity|]. intros ->. simpl in Hsep. tauto.
  - eexists. rewrite join_cons. split; [reflexivity|].
    intros ->. simpl in Hsep. tauto.
Qed.

Lemma join_last (comps : list str) :
  Forall (fun c => plain_comp c = true) comps -> comps <> [] ->
  exists x z, join (lit "/") comps = x ++ [z] /\ z <> "/"%char.
Proof.
  induction 1 as [|c rest Hc Hrest IH]; intros Hne; [congruence|].
  destruct (plain_comp_facts _ Hc) as (Hsep & Hnil & _).
  destruct rest as [|c' rest].
  - destruct (exists_last Hnil) as (x & z & ->). exists x, z.
    split; [reflexivity|]. intros ->. apply Hsep, in_or_app.
    right; left; reflexivity.
  - destruct (IH ltac:(discriminate)) as (x & z & E & Hz).
    exists (c ++ lit "/" ++ x), z. rewrite join_cons, E, <- !app_assoc.
    split; [reflexivity | exact Hz].
Qed.

Lemma abs_comps_join (cwd : str) (comps : list str) :
  Forall (fun c => plain_comp c = true) comps -> comps <> [] ->
  abs_comps cwd (join (lit "/") comps)
  = rev (fold_left norm_step (split_sep cwd) []) ++ comps.
Proof.
  intros H Hne. destruct (join_head H Hne) as (a & t & E & Ha).
  rewrite abs_comps_relative.
  - rewrite split_sep_join, norm_steps_plain by assumption.
    rewrite rev_app_distr, rev_involutive. reflexivity.
  - rewrite E. change (lit "/") with ["/"%char]. cbn [starts_with].
    destruct (Ascii.eqb "/" a) eqn:E'; [|reflexivity].
    apply Ascii.eqb_eq in E'. congruence.
Qed.

Lemma basename_after_sep (x name : str) :
  ~ In "/"%char name -> basename (x ++ "/"%char :: name) = name.
Proof.
  intros Hn.
  assert (Hno : existsb is_sep name = false).
  { destruct (existsb is_sep name) eqn:E; [|reflexivity].
    apply existsb_exists in E as (c & Hc & Hs). apply Ascii.eqb_eq in Hs.
    subst c. tauto. }
  induction x as [|c x IH]; simpl.
  - rewrite Hno. reflexivity.
  - rewrite existsb_app. simpl. rewrite orb_true_r. exact IH.
Qed.

Lemma basename_no_sep (name : str) : ~ In "/"%char name -> basename name = name.
Proof.
  intros Hn. destruct name as [|c name]; [reflexivity|]. simpl.
  assert (Hno : existsb is_sep name = false).
  { destruct (existsb is_sep name) eqn:E; [|reflexivity].
    apply existsb_exists in E as (a & Ha & Hs). apply Ascii.eqb_eq in Hs.
    subst a. simpl in Hn. tauto. }
  rewrite Hno. destruct (is_sep c) eqn:E; [|reflexivity].
  apply Ascii.eqb_eq in E. subst c. simpl in Hn. tauto.
Qed.

(** The directory of a file in a directory made of plain components. *)
Lemma dirname_join (d : list str) (name : str) :
  Forall (fun c => plain_comp c = true) d -> d <> [] ->
  ~ In "/"%char name ->
  dirname (join (lit "/") d ++ lit "/" ++ name) = join (lit "/") d.
Proof.
  intros Hd Hne Hn. unfold dirname.
  change (lit "/" ++ name) with ("/"%char :: name).
  rewrite basename_after_sep by exact Hn.
  replace (length (join (lit "/") d ++ "/"%char :: name) - length name)
    with (length (join (lit "/") d ++ ["/"%char]))
    by (rewrite !length_app; simpl; lia).
  replace (join (lit "/") d ++ "/"%char :: name)
    with ((join (lit "/") d ++ ["/"%char]) ++ name)
    by (rewrite <- app_assoc; reflexivity).
  rewrite firstn_app, firstn_all, Nat.sub_diag. simpl firstn.
  rewrite app_nil_r.
  destruct (join_head Hd Hne) as (a & t & E & Ha).
  destruct (join_last Hd Hne) as (x & z & E' & Hz).
  assert (Hall : forallb is_sep (join (lit "/") d ++ ["/"%char]) = false).
  { rewrite E. cbn [forallb app]. destruct (is_sep a) eqn:Ea; [|reflexivity].
    apply Ascii.eqb_eq in Ea. congruence. }
  rewrite Hall. rewrite rev_app_distr. cbn [rev app drop_while].
  change (is_sep "/") with true. cbv iota.
  rewrite E'. rewrite rev_app_distr. cbn [rev app drop_while].
  destruct (is_sep z) eqn:Ez.
  - apply Ascii.eqb_eq in Ez. congruence.
  - change (z :: rev x) with (rev [z] ++ rev x).
    rewrite <- rev_app_distr, rev_involutive. reflexivity.
Qed.

(** X10: in [update_readmes.py], for a README in a directory and a changed
    file below that directory (paths made of plain components), the link
    target is the part of the file's path below the directory, with every
    space written [%20]; for a README at the top, it is the file's path
    with every space written [%20].  The working directory plays no part. *)
Theorem readmes_link_is_relative_path (cwd : str) :
  (forall (d r : list str) (name : str),
      Forall (fun c => plain_comp c = true) d ->
      Forall (fun c => plain_comp c = true) r ->
      d <> [] -> r <> [] -> ~ In "/"%char name ->
      Readmes.file_link cwd (join (lit "/") d ++ lit "/" ++ name)
        (join (lit "/") (d ++ r))
      = replace (lit " ") (lit "%20") (join (lit "/") r))
  /\ (forall name file_path : str,
         ~ In "/"%char name ->
         Readmes.file_link cwd name file_path
         = replace (lit " ") (lit "%20") file_path).
Proof.
  split.
  - intros d r name Hd Hr Hdne Hrne Hn. unfold Readmes.file_link.
    rewrite dirname_join by assumption.
    assert (Hrel : relpath cwd (join (lit "/") (d ++ r)) (join (lit "/") d)
                   = join (lit "/") r).
    { apply (@relpath_descend cwd _ _
               (rev (fold_left norm_step (split_sep cwd) []) ++ d) r).
      - apply abs_comps_join; assumption.
      - rewrite abs_comps_join.
        + rewrite app_assoc. reflexivity.
        + apply Forall_app; split; assumption.
        + destruct d; [congruence | discriminate].
      - exact Hrne. }
    destruct (join_head Hd Hdne) as (a & t & E & _).
    rewrite E in Hrel |- *. cbv iota. rewrite Hrel. reflexivity.
  - intros name file_path Hn. unfold Readmes.file_link, dirname.
    rewrite basename_no_sep by exact Hn. rewrite Nat.sub_diag. reflexivity.
Qed.

Lemma readmes_link_is_relative_path_witness :
  Readmes.file_link (lit "/home/runner/work") (lit "docs/api/README.md")
    (lit "docs/api/v2/user guide.md")
  = lit "v2/user%20guide.md".
Proof.
  apply (proj1 (readmes_link_is_relative_path (lit "/home/runner/work"))
           [lit "docs"; lit "api"] [lit "v2"; lit "user guide.md"]
           (lit "README.md")).
  - repeat constructor.
  - repeat constructor.
  - discriminate.
  - discriminate.
  - simpl. intuition discriminate.
Defined.

(** ** Links of dated posts in [update_jekyll_readmes.py] *)

Lemma lazy_until_md_slug (slug rest : str) :
  ~ In "010"%char slug ->
  contains (lit ".md") slug = false ->
  Jekyll.lazy_until_md (slug ++ lit ".md" ++ rest) = Some slug.
Proof.
  induction slug as [|c slug IH]; intros Hnl Hmd.
  - reflexivity.
  - change ((c :: slug) ++ lit ".md" ++ rest)
      with (c :: (slug ++ lit ".md" ++ rest)).
    cbn [Jekyll.lazy_until_md].
    assert (H0 : starts_with (c :: slug ++ lit ".md" ++ rest) (lit ".md")
                 = false).
    { change (c :: slug ++ lit ".md" ++ rest)
        with (skipn 0 ((c :: slug) ++ "."%char :: (lit "md" ++ rest))).
      change (lit ".md") with ("."%char :: lit "md").
      apply no_straddle; [simpl; lia | simpl; intuition discriminate|].
      exact Hmd. }
    rewrite H0.
    destruct (Ascii.eqb c "010") eqn:E.
    + apply Ascii.eqb_eq in E. subst c. simpl in Hnl. tauto.
    + rewrite IH; [reflexivity | simpl in Hnl; tauto|].
      exact (contains_tail _ _ _ Hmd).
Qed.

(** X11: a changed file [_posts/DATE-SLUG.md], followed by anything, where
    [DATE] has the shape [dddd-dd-dd] and [SLUG] holds no newline and no
    [.md], is read as a post: a Jekyll target links it at [/blog/SLUG] and
    labels it with the date, a colon and the slug with its dashes turned
    into spaces. *)
Theorem jekyll_post_link (date slug rest : str) :
  Jekyll.date_shaped date = true ->
  ~ In "010"%char slug ->
  contains (lit ".md") slug = false ->
  let p := lit "_posts/" ++ date ++ lit "-" ++ slug ++ lit ".md" ++ rest in
  Jekyll.post_match p = Some (date, slug)
  /\ Jekyll.jekyll_link p = lit "/blog/" ++ slug
  /\ Jekyll.jekyll_name p
     = date ++ lit ": " ++ replace (lit "-") (lit " ") slug.
Proof.
  intros Hdate Hnl Hmd p.
  assert (Hlen : length date = 10).
  { unfold Jekyll.date_shaped in Hdate.
    do 10 (destruct date as [|? date]; [discriminate|]).
    destruct date; [reflexivity | discriminate]. }
  assert (Hstart : starts_with p (lit "_posts/") = true)
    by (apply starts_with_app).
  assert (Hparts : forall Y,
             firstn 10 (date ++ Y) = date /\ skipn 10 (date ++ Y) = Y
             /\ forall c, skipn 11 (date ++ c :: Y) = Y).
  { intros Y. clear - Hlen.
    do 10 (destruct date as [|? date]; [discriminate|]).
    destruct date; [|discriminate]. repeat split. }
  assert (Hmatch : Jekyll.post_match p = Some (date, slug)).
  { unfold Jekyll.post_match. rewrite Hstart.
    change (skipn 7 p) with (date ++ lit "-" ++ slug ++ lit ".md" ++ rest).
    destruct (Hparts (lit "-" ++ slug ++ lit ".md" ++ rest)) as (-> & -> & _).
    change (lit "-" ++ slug ++ lit ".md" ++ rest)
      with ("-"%char :: (slug ++ lit ".md" ++ rest)).
    destruct (Hparts (slug ++ lit ".md" ++ rest)) as (_ & _ & ->).
    rewrite Hdate.
    change (starts_with ("-"%char :: slug ++ lit ".md" ++ rest) (lit "-"))
      with true.
    cbn [andb]. rewrite lazy_until_md_slug by assumption. reflexivity. }
  split; [exact Hmatch|]. split.
  - unfold Jekyll.jekyll_link. rewrite Hstart, Hmatch. reflexivity.
  - unfold Jekyll.jekyll_name. rewrite Hstart, Hmatch.
    destruct (str_eqb (lower (date ++ lit ": " ++ replace (lit "-") (lit " ") slug))
                (lit "readme.md")) eqn:E; [|reflexivity].
    apply str_eqb_eq in E. apply (f_equal (@length ascii)) in E.
    unfold lower in E. rewrite length_map, !length_app, Hlen in E.
    simpl in E. lia.
Qed.

Lemma jekyll_post_link_witness :
  Jekyll.post_match (lit "_posts/2024-03-01-hello-world.md")
  = Some (lit "2024-03-01", lit "hello-world")
  /\ Jekyll.jekyll_link (lit "_posts/2024-03-01-hello-world.md")
     = lit "/blog/hello-world"
  /\ Jekyll.jekyll_name (lit "_posts/2024-03-01-hello-world.md")
     = lit "2024-03-01: hello world".
Proof.
  apply (@jekyll_post_link (lit "2024-03-01") (lit "hello-world") []).
  - reflexivity.
  - simpl. intuition discriminate.
  - reflexivity.
Defined.

(** ** File discovery *)

Lemma split_sep_nonempty (x : str) : split_sep x <> [].
Proof.
  destruct x as [|c x]; simpl; [discriminate|].
  destruct (Ascii.eqb c "/"); [discriminate|].
  destruct (split_sep x); discriminate.
Qed.

Lemma split_sep_snoc (x f : str) :
  split_sep (x ++ "/"%char :: f) = split_sep x ++ split_sep f.
Proof.
  induction x as [|c x IH]; [reflexivity|].
  change ((c :: x) ++ "/"%char :: f) with (c :: (x ++ "/"%char :: f)).
  cbn [split_sep]. rewrite IH.
  destruct (Ascii.eqb c "/"); [reflexivity|].
  pose proof (split_sep_nonempty x) as Hne.
  destruct (split_sep x); [congruence | reflexivity].
Qed.

Lemma str_eqb_length (a b : str) : length a <> length b -> str_eqb a b = false.
Proof.
  intros H. apply str_eqb_neq. intros ->. congruence.
Qed.

Lemma ends_with_inv (s p : str) :
  ends_with s p = true -> exists t, s = t ++ p.
Proof.
  unfold ends_with. intros H. destruct (starts_with_inv _ _ H) as [t Ht].
  exists (rev t). rewrite <- (rev_involutive s), Ht, rev_app_distr.
  rewrite rev_involutive. reflexivity.
Qed.

(** [os.path.join] of a directory and a file name ends in a slash and the
    name, or is the name. *)
Lemma path_join_shape (root file : str) :
  starts_with file (lit "/") = false ->
  path_join root file = file
  \/ exists x, path_join root file = x ++ "/"%char :: file.
Proof.
  intros Hf. unfold path_join. rewrite Hf.
  destruct (str_eqb root []) eqn:E0; cbn [orb].
  - apply str_eqb_eq in E0. subst root. left; reflexivity.
  - destruct (ends_with root (lit "/")) eqn:E1.
    + destruct (ends_with_inv _ _ E1) as [t ->]. right. exists t.
      rewrite <- app_assoc. reflexivity.
    + right. exists root. reflexivity.
Qed.

(** [normpath] keeps a last component that is a plain name of at least
    three characters as the last component. *)
Lemma normpath_keeps_name (path file : str) :
  ~ In "/"%char file -> 3 <= length file ->
  path = file \/ (exists x, path = x ++ "/"%char :: file) ->
  normpath path = file \/ exists y, normpath path = y ++ "/"%char :: file.
Proof.
  intros Hsep Hlen Hpath.
  assert (Hsplit : exists pre, split_sep path = pre ++ [file]).
  { destruct Hpath as [-> | [x ->]].
    - exists []. apply split_sep_no_sep; exact Hsep.
    - exists (split_sep x). rewrite split_sep_snoc.
      rewrite (split_sep_no_sep _ Hsep). reflexivity. }
  destruct Hsplit as [pre Hsplit].
  assert (Hne : path <> []).
  { destruct Hpath as [-> | [x ->]].
    - intros ->. simpl in Hlen. lia.
    - destruct x; discriminate. }
  unfold normpath. destruct path as [|p0 path']; [congruence|].
  set (path := p0 :: path') in *.
  set (k := if starts_with path (lit "/")
            then if starts_with path (lit "//")
                    && negb (starts_with path (lit "///")) then 2 else 1
            else 0).
  rewrite Hsplit, fold_left_app. cbn [fold_left].
  set (st := fold_left (normpath_step (0 <? k)) pre []).
  assert (Hstep : normpath_step (0 <? k) st file = file :: st).
  { unfold normpath_step.
    rewrite (str_eqb_length file []) by (simpl; lia).
    rewrite (str_eqb_length file (lit ".")) by (simpl; lia).
    rewrite (str_eqb_length file (lit "..")) by (simpl; lia).
    reflexivity. }
  rewrite Hstep. cbn [rev].
  assert (Hshape : repeat "/"%char k ++ join (lit "/") (rev st ++ [file]) = file
                   \/ exists y, repeat "/"%char k
                                ++ join (lit "/") (rev st ++ [file])
                                = y ++ "/"%char :: file).
  { destruct (rev st) as [|c0 l] eqn:Er.
    - simpl app at 2. cbn [join]. destruct k as [|k'].
      + left; reflexivity.
      + right. exists (repeat "/"%char k').
        change (repeat "/"%char (S k')) with ("/"%char :: repeat "/"%char k').
        rewrite repeat_cons, <- app_assoc. reflexivity.
    - right. exists (repeat "/"%char k ++ join (lit "/") (c0 :: l)).
      rewrite join_app by discriminate. rewrite <- app_assoc. reflexivity. }
  destruct Hshape as [-> | [y ->]].
  - left. destruct file; [simpl in Hlen; lia | reflexivity].
  - right. exists y. destruct y; reflexivity.
Qed.

(** Dropping a leading [./] keeps the last component. *)
Lemma basename_of_discovered (root file : str) :
  ~ In "/"%char file -> 3 <= length file ->
  let found := normpath (path_join root file) in
  basename (if starts_with found (lit "./") then skipn 2 found else found)
  = file.
Proof.
  intros Hsep Hlen found.
  assert (Hf : starts_with file (lit "/") = false).
  { destruct file as [|a file]; [reflexivity|].
    change (lit "/") with ["/"%char]. cbn [starts_with].
    destruct (Ascii.eqb "/" a) eqn:E; [|reflexivity].
    apply Ascii.eqb_eq in E. subst a. exfalso. apply Hsep. left; reflexivity. }
  destruct (@normpath_keeps_name (path_join root file) file Hsep Hlen
              (@path_join_shape root file Hf))
    as [E | [y E]]; subst found; rewrite E.
  - destruct (starts_with file (lit "./")) eqn:Es.
    + destruct (starts_with_inv _ _ Es) as [t Ht]. exfalso. apply Hsep.
      rewrite Ht. right; left; reflexivity.
    + apply basename_no_sep; exact Hsep.
  - destruct (starts_with (y ++ "/"%char :: file) (lit "./")) eqn:Es;
      [|apply basename_after_sep; exact Hsep].
    destruct (starts_with_inv _ _ Es) as [t Ht].
    destruct y as [|y0 [|y1 y]].
    + discriminate Ht.
    + injection Ht as _ Ht. simpl. subst t.
      apply basename_no_sep; exact Hsep.
    + injection Ht as _ _ Ht. simpl skipn.
      apply basename_after_sep; exact Hsep.
Qed.

Lemma lowered_name_plain (file name : str) :
  lower file = name -> ~ In "/"%char name -> 3 <= length name ->
  ~ In "/"%char file /\ 3 <= length file.
Proof.
  intros Hl Hn Hlen. split.
  - intros Hin. apply Hn. rewrite <- Hl. unfold lower.
    change "/"%char with (lower_char "/"). apply in_map; exact Hin.
  - rewrite <- Hl in Hlen. unfold lower in Hlen. rewrite length_map in Hlen.
    exact Hlen.
Qed.

(** X12: every path found by [find_readme_files] comes from a file of the
    walk whose name is [readme.md] up to case, in a directory whose path
    does not hold [.git], and has that file name as its last component;
    [find_readme_and_index_files] finds files named [readme.md] or
    [index.md] up to case, outside the directories whose path holds [.git],
    [_site], [.jekyll-cache] or [.sass-cache]. *)
Theorem discovered_targets_are_named (walk : list (str * list str * list str))
  (p : str) :
  (In p (Readmes.find_readme_files walk) ->
   exists root dirs files file,
     In (root, dirs, files) walk /\ In file files
     /\ contains (lit ".git") root = false
     /\ lower file = lit "readme.md" /\ basename p = file)
  /\ (In p (Jekyll.find_readme_and_index_files walk) ->
      exists root dirs files file,
        In (root, dirs, files) walk /\ In file files
        /\ contains (lit ".git") root = false
        /\ contains (lit "_site") root = false
        /\ contains (lit ".jekyll-cache") root = false
        /\ contains (lit ".sass-cache") root = false
        /\ (lower file = lit "readme.md" \/ lower file = lit "index.md")
        /\ basename p = file).
Proof.
  split.
  - unfold Readmes.find_readme_files. intros H.
    apply in_flat_map in H as ([[root dirs] files] & Hw & H).
    destruct (contains (lit ".git") root) eqn:Eg; [destruct H|].
    apply in_flat_map in H as (file & Hf & H).
    destruct (str_eqb (lower file) (lit "readme.md")) eqn:El; [|destruct H].
    apply str_eqb_eq in El. destruct H as [<- | []].
    exists root, dirs, files, file. repeat split; auto.
    destruct (@lowered_name_plain file (lit "readme.md") El) as [Hsep Hlen];
      [simpl; intuition discriminate | simpl; lia|].
    apply basename_of_discovered; assumption.
  - unfold Jekyll.find_readme_and_index_files. intros H.
    apply in_flat_map in H as ([[root dirs] files] & Hw & H).
    cbn [existsb] in H.
    destruct (contains (lit ".git") root) eqn:E1; [destruct H|].
    destruct (contains (lit "_site") root) eqn:E2; [destruct H|].
    destruct (contains (lit ".jekyll-cache") root) eqn:E3; [destruct H|].
    destruct (contains (lit ".sass-cache") root) eqn:E4; [destruct H|].
    cbn [orb] in H.
    apply in_flat_map in H as (file & Hf & H).
    destruct (str_eqb (lower file) (lit "readme.md")
              || str_eqb (lower file) (lit "index.md")) eqn:El; [|destruct H].
    destruct H as [<- | []].
    apply orb_true_iff in El. rewrite !str_eqb_eq in El.
    exists root, dirs, files, file. repeat split; auto.
    assert (Hplain : ~ In "/"%char file /\ 3 <= length file).
    { destruct El as [El | El];
        apply (@lowered_name_plain file _ El);
        simpl; try lia; intuition discriminate. }
    destruct Hplain as [Hsep Hlen].
    apply basename_of_discovered; assumption.
Qed.

Lemma discovered_targets_are_named_witness :
  exists root dirs files file,
    In (root, dirs, files)
      [(lit ".", [lit "docs"], [lit "setup.py"]);
       (lit "./docs", [], [lit "ReadMe.md"])]
    /\ In file files
    /\ contains (lit ".git") root = false
    /\ lower file = lit "readme.md"
    /\ basename (lit "docs/ReadMe.md") = file.
Proof.
  apply (proj1 (discovered_targets_are_named
                  [(lit ".", [lit "docs"], [lit "setup.py"]);
                   (lit "./docs", [], [lit "ReadMe.md"])]
                  (lit "docs/ReadMe.md"))).
  vm_compute. left; reflexivity.
Defined.

(** ** Index files of the Jekyll directories *)

(** A path made of a directory name, a separator and a file name leads
    through no file when the directory is one. *)
Lemma through_file_in_dir (fs : filesystem) (d name : str) :
  ~ In "/"%char d -> ~ In "/"%char name -> isdir fs d = true ->
  through_file fs (d ++ "/"%char :: name) = false.
Proof.
  intros Hd Hname Hdir. unfold through_file.
  destruct (existsb _ _) eqn:E; [|reflexivity]. exfalso.
  apply existsb_exists in E as (k & _ & Hk).
  apply andb_true_iff in Hk as [Hsep Hfile].
  destruct (Nat.lt_trichotomy k (length d)) as [Hlt | [-> | Hgt]].
  - rewrite skipn_app in Hsep.
    destruct (skipn k d) as [|c r] eqn:Es.
    + apply (f_equal (@length ascii)) in Es. rewrite length_skipn in Es.
      simpl in Es. lia.
    + assert (Hin : In c d)
        by (rewrite <- (firstn_skipn k d), Es; apply in_or_app; right;
            left; reflexivity).
      change (lit "/") with ["/"%char] in Hsep. cbn [app starts_with] in Hsep.
      rewrite andb_true_r in Hsep. apply Ascii.eqb_eq in Hsep. subst c.
      exact (Hd Hin).
  - rewrite firstn_app, firstn_all, Nat.sub_diag, app_nil_r in Hfile.
    unfold is_file in Hfile. rewrite Hdir in Hfile. discriminate Hfile.
  - rewrite skipn_app, skipn_all2 in Hsep by lia.
    replace (k - length d) with (S (k - length d - 1)) in Hsep by lia.
    cbn [app skipn] in Hsep.
    destruct (skipn (k - length d - 1) name) as [|c r] eqn:Es;
      [discriminate Hsep|].
    assert (Hin : In c name)
      by (rewrite <- (firstn_skipn (k - length d - 1) name), Es;
          apply in_or_app; right; left; reflexivity).
    change (lit "/") with ["/"%char] in Hsep. cbn [starts_with] in Hsep.
    rewrite andb_true_r in Hsep. apply Ascii.eqb_eq in Hsep. subst c.
    exact (Hname Hin).
Qed.

(** What the lemmas below need of a Jekyll directory name: it is one plain
    component, so that its index file lies in it. *)
Lemma jekyll_dirs_plain :
  Forall (fun d => ~ In "/"%char d
                   /\ path_join d (lit "index.md") = d ++ lit "/index.md"
                   /\ dirname (d ++ lit "/index.md") = d)
    Jekyll.JEKYLL_DIRS.
Proof.
  repeat constructor; try reflexivity;
    (apply char_absent; reflexivity).
Qed.

(** One turn of the loop of [create_jekyll_indexes]. *)
Lemma create_index_step (fs : filesystem) (d : str) :
  ~ In "/"%char d ->
  path_join d (lit "index.md") = d ++ lit "/index.md" ->
  dirname (d ++ lit "/index.md") = d ->
  exists fs1,
    Jekyll.create_index (Ok fs) d = Ok fs1
    /\ dirs fs1 = dirs fs
    /\ (forall p, path_exists fs p = true -> dict_get p fs1 = dict_get p fs)
    /\ (isdir fs d = true ->
        path_exists fs1 (path_join d (lit "index.md")) = true)
    /\ (forall p, path_exists fs p = false ->
                  path_exists fs1 p = true ->
                  isdir fs d = true /\ p = path_join d (lit "index.md")
                  /\ dict_get p fs1 = Some (File (Jekyll.index_body d))).
Proof.
  intros Hplain Hjoin Hparent.
  unfold Jekyll.create_index, bind.
  set (ip := path_join d (lit "index.md")).
  assert (Hkeep : exists fs1, Ok fs = Ok fs1 /\ dirs fs1 = dirs fs
            /\ (forall p, path_exists fs p = true ->
                          dict_get p fs1 = dict_get p fs)
            /\ (forall p, path_exists fs p = false ->
                          path_exists fs1 p = true ->
                          isdir fs d = true /\ p = ip
                          /\ dict_get p fs1
                             = Some (File (Jekyll.index_body d))))
    by (exists fs; repeat split; try reflexivity; congruence).
  destruct (isdir fs d) eqn:Ed; cbn [andb].
  - destruct (path_exists fs ip) eqn:Ex; cbn [negb].
    + destruct Hkeep as (fs1 & E & H1 & H2 & H3). exists fs1.
      inversion E; subst fs1. auto.
    + pose proof Ex as Ex'. unfold path_exists in Ex'.
      apply orb_false_iff in Ex' as [Enodir Enone].
      assert (Hnone : dict_get ip fs = None)
        by (destruct (dict_get ip fs); [discriminate | reflexivity]).
      assert (Hwrite : write_file fs ip (Jekyll.index_body d)
                       = Ok (set_file fs ip (Jekyll.index_body d))).
      { unfold write_file, parent_is_dir. rewrite Enodir, Hnone.
        unfold ip. rewrite Hjoin, Hparent, Ed, orb_true_r.
        change (d ++ lit "/index.md") with (d ++ "/"%char :: lit "index.md").
        rewrite through_file_in_dir;
          [|exact Hplain | apply char_absent; reflexivity | exact Ed].
        destruct d; reflexivity. }
      rewrite Hwrite. eexists; split; [reflexivity|].
      split; [reflexivity|]. split; [|split].
      * intros p Hp. rewrite set_file_get.
        destruct (str_eqb ip p) eqn:E; [|reflexivity].
        apply str_eqb_eq in E; subst p. congruence.
      * intros _. unfold path_exists.
        rewrite set_file_get, str_eqb_refl. apply orb_true_r.
      * intros p Hp Hp1. unfold path_exists in Hp, Hp1.
        change (isdir (set_file fs ip (Jekyll.index_body d)) p)
          with (isdir fs p) in Hp1.
        rewrite set_file_get in Hp1 |- *.
        destruct (str_eqb ip p) eqn:E.
        -- apply str_eqb_eq in E. subst p. auto.
        -- rewrite Hp1 in Hp. discriminate.
  - destruct Hkeep as (fs1 & E & H1 & H2 & H3). exists fs1.
    inversion E; subst fs1.
    split; [reflexivity|]. split; [reflexivity|]. split; [exact H2|].
    split; [discriminate | exact H3].
Qed.

Lemma isdir_same_dirs (fs fs1 : filesystem) (d : str) :
  dirs fs1 = dirs fs -> isdir fs1 d = isdir fs d.
Proof. unfold isdir. intros ->. reflexivity. Qed.

Lemma create_indexes_spec (ds : list str) (fs : filesystem) :
  Forall (fun d => ~ In "/"%char d
                   /\ path_join d (lit "index.md") = d ++ lit "/index.md"
                   /\ dirname (d ++ lit "/index.md") = d) ds ->
  exists fs',
    fold_left Jekyll.create_index ds (Ok fs) = Ok fs'
    /\ dirs fs' = dirs fs
    /\ (forall p, path_exists fs p = true -> dict_get p fs' = dict_get p fs)
    /\ (forall d, In d ds -> isdir fs d = true ->
                  path_exists fs' (path_join d (lit "index.md")) = true)
    /\ (forall p, path_exists fs p = false ->
                  path_exists fs' p = true ->
                  exists d, In d ds /\ isdir fs d = true
                            /\ p = path_join d (lit "index.md")
                            /\ dict_get p fs'
                               = Some (File (Jekyll.index_body d))).
Proof.
  intros Hds. revert fs; induction Hds as [|d ds (Hp1 & Hp2 & Hp3) Hds IH];
    intros fs.
  - exists fs. cbn [fold_left].
    split; [reflexivity|]. split; [reflexivity|]. split; [reflexivity|].
    split.
    + intros d [].
    + intros p H1 H2. congruence.
  - cbn [fold_left].
    destruct (@create_index_step fs d Hp1 Hp2 Hp3)
      as (fs1 & -> & Hd1 & Hk1 & Hi1 & Hn1).
    destruct (IH fs1) as (fs' & Hrun & Hd & Hk & Hi & Hn).
    assert (Hex : forall p, path_exists fs p = true ->
                            path_exists fs1 p = true).
    { intros p Hp. unfold path_exists in Hp |- *.
      rewrite (@isdir_same_dirs fs fs1 p Hd1), (Hk1 p); [exact Hp|].
      exact Hp. }
    assert (Hex' : forall p, path_exists fs1 p = true ->
                             path_exists fs' p = true).
    { intros p Hp. unfold path_exists in Hp |- *.
      rewrite (@isdir_same_dirs fs1 fs' p Hd), (Hk p); [exact Hp|].
      exact Hp. }
    exists fs'. split; [exact Hrun|]. split; [congruence|].
    split; [|split].
    + intros p Hp. rewrite (Hk p (Hex p Hp)). apply Hk1; exact Hp.
    + intros d0 [<- | Hd0] Hdir.
      * apply Hex', Hi1, Hdir.
      * apply (Hi d0 Hd0). rewrite (@isdir_same_dirs fs fs1 d0 Hd1). exact Hdir.
    + intros p Hp Hp'.
      destruct (path_exists fs1 p) eqn:E1.
      * destruct (Hn1 p Hp E1) as (Hdir & -> & Hbody).
        exists d. repeat split; auto; [left; reflexivity|].
        rewrite (Hk _ E1). exact Hbody.
      * destruct (Hn p E1 Hp') as (d0 & Hd0 & Hdir & -> & Hbody).
        exists d0. repeat split; auto; [right; exact Hd0|].
        rewrite <- (@isdir_same_dirs fs fs1 d0 Hd1). exact Hdir.
Qed.

(** X13: [create_jekyll_indexes] writes only where nothing exists and the
    directory does, so it always finishes (a write fails only at a path
    that cannot be opened or whose directory is missing); it leaves every
    path that exists as it was, so it never overwrites an index file;
    afterwards every Jekyll directory of the checkout has an [index.md];
    and every path it has added is the [index.md] of such a directory,
    holding the body written for that directory. *)
Theorem create_jekyll_indexes_only_adds (fs : filesystem) :
  exists fs',
    Jekyll.create_jekyll_indexes fs = Ok fs'
    /\ (forall p, path_exists fs p = true -> dict_get p fs' = dict_get p fs)
    /\ (forall d, In d Jekyll.JEKYLL_DIRS -> isdir fs d = true ->
                  path_exists fs' (path_join d (lit "index.md")) = true)
    /\ (forall p, path_exists fs p = false ->
                  path_exists fs' p = true ->
                  exists d, In d Jekyll.JEKYLL_DIRS /\ isdir fs d = true
                            /\ p = path_join d (lit "index.md")
                            /\ dict_get p fs'
                               = Some (File (Jekyll.index_body d))).
Proof.
  destruct (@create_indexes_spec Jekyll.JEKYLL_DIRS fs jekyll_dirs_plain)
    as (fs' & Hrun & _ & Hkeep & Hindex & Hnew).
  exists fs'. repeat split; assumption.
Qed.

(** X14: the index file that [create_jekyll_indexes] writes for a Jekyll
    directory is a heading followed by one section between the markers;
    the splice of a fragment without backslash keeps the heading and puts
    the fragment in the place of that section. *)
Theorem created_index_takes_fragment (d F : str) :
  In d Jekyll.JEKYLL_DIRS ->
  backslash_free F ->
  exists heading,
    Jekyll.index_body d
    = heading ++ START_MARKER
      ++ (nl ++ lit "## Recently Updated Files" ++ nl ++ nl
          ++ lit "*Updates will appear here after the next run*" ++ nl ++ nl)
      ++ END_MARKER
    /\ contains START_MARKER heading = false
    /\ splice (Jekyll.index_body d) F = Ok (heading ++ F).
Proof.
  intros Hd Hbs.
  set (body := nl ++ lit "## Recently Updated Files" ++ nl ++ nl
               ++ lit "*Updates will appear here after the next run*"
               ++ nl ++ nl).
  set (heading :=
         lit "---" ++ nl ++ lit "layout: default" ++ nl
         ++ lit "title: " ++ capitalize d ++ lit " Directory" ++ nl
         ++ lit "---" ++ nl ++ nl
         ++ lit "# " ++ capitalize d ++ lit " Directory" ++ nl ++ nl
         ++ lit "This directory contains " ++ lower d ++ lit " files."
         ++ nl ++ nl).
  assert (Hshape : Jekyll.index_body d
                   = heading ++ START_MARKER ++ body ++ END_MARKER ++ []).
  { unfold Jekyll.index_body, heading, body.
    rewrite app_nil_r, <- !app_assoc. reflexivity. }
  assert (Hhead : contains START_MARKER heading = false).
  { unfold heading. cbn [Jekyll.JEKYLL_DIRS In] in Hd.
    repeat (destruct Hd as [<- | Hd]; [vm_compute; reflexivity|]).
    destruct Hd. }
  exists heading. split; [|split; [exact Hhead|]].
  - rewrite Hshape, app_nil_r. reflexivity.
  - rewrite Hshape. unfold splice.
    destruct (section_has_markers heading body []) as [-> ->]. cbn [andb].
    rewrite re_sub_literal by exact Hbs.
    rewrite sub_replaces_section;
      [rewrite app_nil_r; reflexivity | exact Hhead | reflexivity
      | reflexivity].
Qed.

Lemma created_index_takes_fragment_witness :
  exists heading,
    Jekyll.index_body (lit "_posts")
    = heading ++ START_MARKER
      ++ (nl ++ lit "## Recently Updated Files" ++ nl ++ nl
          ++ lit "*Updates will appear here after the next run*" ++ nl ++ nl)
      ++ END_MARKER
    /\ contains START_MARKER heading = false
    /\ splice (Jekyll.index_body (lit "_posts")) (fragment [] jan1)
       = Ok (heading ++ fragment [] jan1).
Proof.
  apply (@created_index_takes_fragment (lit "_posts") (fragment [] jan1)).
  - left; reflexivity.
  - reflexivity.
Defined.

(** ** The whole run of the Jekyll script *)

Lemma scoped_entries_from_map (directory : str) (cm : dict info) :
  Forall (fun e => In (fst e) (keys cm)) (get_directory_changes directory cm).
Proof.
  unfold get_directory_changes.
  apply firstn_Forall, sorted_desc_Forall.
  apply scope_fold_Forall with (P := fun e => In (fst e) (keys cm));
    [|constructor].
  intros e He _ _ v. cbn [fst]. unfold keys. apply in_map. exact He.
Qed.

(** One update of the Jekyll script touches the target or, through the
    rebound loop variable, a path of the change map, and nothing else. *)
Lemma jekyll_update_frame (cwd : str) (fs fs' : filesystem) (p : str)
  (cm : dict info) (now : datetime) :
  Jekyll.update_file cwd fs p cm now = Ok fs' ->
  forall q, q <> p -> ~ In q (keys cm) -> dict_get q fs' = dict_get q fs.
Proof.
  unfold Jekyll.update_file, bind.
  destruct (Jekyll.read_or_placeholder fs p) as [content|e]; [|discriminate].
  destruct (splice content _) as [new_content|e]; [|discriminate].
  set (written := Jekyll.path_after_loop p (get_directory_changes p cm)).
  assert (Hw : written = p \/ In written (keys cm)).
  { unfold written, Jekyll.path_after_loop.
    pose proof (scoped_entries_from_map p cm) as Hall.
    destruct (get_directory_changes p cm) as [|e l]; [left; reflexivity|].
    right. rewrite Forall_forall in Hall.
    apply (Hall (last (e :: l) _)). apply last_In. discriminate. }
  destruct (makedirs fs (or_default (dirname written) (lit ".")))
    as [fs_made|e] eqn:Em; [|discriminate].
  intros H q Hq Hk. apply write_file_ok in H.
  apply makedirs_grown in Em as (Hfiles & _).
  subst fs'. rewrite set_file_get, Hfiles.
  destruct (str_eqb written q) eqn:E; [|reflexivity].
  apply str_eqb_eq in E. subst q. destruct Hw as [Hw | Hw]; contradiction.
Qed.

Lemma jekyll_run_frame (cwd : str) (cm : dict info)
  (clock : str -> datetime) (targets : list str)
  (state : result filesystem) (fs' : filesystem) :
  fold_left
    (fun st file_path =>
       fs1 <- st ;;
       Jekyll.update_file cwd fs1 file_path cm (clock file_path))
    targets state = Ok fs' ->
  exists fs, state = Ok fs
    /\ forall q, ~ In q targets -> ~ In q (keys cm) ->
                 dict_get q fs' = dict_get q fs.
Proof.
  revert state; induction targets as [|t ts IH]; intros state H; simpl in H.
  - exists fs'. split; [exact H | reflexivity].
  - destruct (IH _ H) as (fs1 & Hstep & Hout).
    destruct state as [fs|e]; [|discriminate]. unfold bind in Hstep.
    exists fs. split; [reflexivity|]. intros q Hq Hk.
    rewrite Hout by (try exact Hk; intros Hts; apply Hq; right; exact Hts).
    apply (@jekyll_update_frame cwd fs fs1 t cm (clock t) Hstep q);
      [|exact Hk].
    intros ->. apply Hq. left; reflexivity.
Qed.

(** X15: a run of [update_all_files] that finishes has left as it was every
    path that existed and is neither a target found by the walk nor a path
    of the change map: besides the new index files, the only paths the
    Jekyll script writes are the targets and, through the rebound
    [file_path], changed files of the change map. *)
Theorem jekyll_run_writes_targets_or_changed_files (cwd : str)
  (walk : filesystem -> list (str * list str * list str))
  (commits : list commit) (clock : str -> datetime) (fs fs' : filesystem) :
  Jekyll.update_all_files cwd walk commits clock fs = Ok fs' ->
  exists fs_indexed,
    Jekyll.create_jekyll_indexes fs = Ok fs_indexed
    /\ forall q,
         path_exists fs q = true ->
         ~ In q (Jekyll.find_readme_and_index_files (walk fs_indexed)) ->
         ~ In q (keys (Jekyll.get_repo_changes commits)) ->
         dict_get q fs' = dict_get q fs.
Proof.
  unfold Jekyll.update_all_files, Jekyll.create_jekyll_indexes.
  destruct (@create_indexes_spec Jekyll.JEKYLL_DIRS fs jekyll_dirs_plain)
    as (fs1 & -> & _ & Hkeep & _ & _).
  cbn [bind]. intros H.
  destruct (@jekyll_run_frame cwd _ clock _ (Ok fs1) fs' H)
    as (fs0 & E & Hout).
  inversion E; subst fs0.
  exists fs1. split; [reflexivity|]. intros q Hq Ht Hk.
  rewrite (Hout q Ht Hk). apply Hkeep; exact Hq.
Qed.

Lemma jekyll_run_writes_targets_or_changed_files_witness :
  exists fs',
    Jekyll.update_all_files (lit "/repo")
      (fun _ => [(lit ".", [lit "docs"], [lit "setup.py"]);
                 (lit "./docs", [], [lit "readme.md"])])
      [commit_new; commit_old] (fun _ => jan2) small_checkout = Ok fs'
    /\ dict_get (lit "setup.py") fs' = Some (File (lit "pass")).
Proof.
  destruct (Jekyll.update_all_files (lit "/repo")
      (fun _ => [(lit ".", [lit "docs"], [lit "setup.py"]);
                 (lit "./docs", [], [lit "readme.md"])])
      [commit_new; commit_old] (fun _ => jan2) small_checkout)
    as [fs'|e] eqn:E;
    [|vm_compute in E; discriminate].
  exists fs'. split; [reflexivity|].
  destruct (@jekyll_run_writes_targets_or_changed_files _ _ _ _ _ _ E)
    as (fs1 & _ & Hout).
  rewrite Hout; [reflexivity | reflexivity | |].
  - vm_compute. intros [H | []]; discriminate H.
  - vm_compute. intros [H | []]; discriminate H.
Defined.

(** ** The two scripts side by side *)

Lemma visits_agree (pats1 pats2 : list pattern) (p : str)
  (obs : list (commit * str)) (fu1 fu2 : dict info) :
  should_exclude pats1 p = false ->
  should_exclude pats2 p = false ->
  dict_get p fu1 = dict_get p fu2 ->
  dict_get p (fold_left (visit_obs pats1) obs fu1)
  = dict_get p (fold_left (visit_obs pats2) obs fu2).
Proof.
  intros H1 H2. revert fu1 fu2.
  induction obs as [|[c f] obs IH]; intros fu1 fu2 H; simpl; [exact H|].
  apply IH. destruct (str_eqb f p) eqn:E.
  - apply str_eqb_eq in E; subst f.
    rewrite (@visit_same pats1 p H1 fu1 c), (@visit_same pats2 p H2 fu2 c), H.
    reflexivity.
  - apply str_eqb_neq in E.
    rewrite (@visit_other pats1 p fu1 c f E), (@visit_other pats2 p fu2 c f E).
    exact H.
Qed.

(** X16: for every path that the exclusion list of the Jekyll script lets
    through, the change maps of the two scripts hold the same record, or
    both none, whatever the commits. *)
Theorem scripts_agree_on_tracked_paths (commits : list commit) (p : str) :
  should_exclude Jekyll.EXCLUDE_PATTERNS p = false ->
  dict_get p (Readmes.get_repo_changes commits)
  = dict_get p (Jekyll.get_repo_changes commits).
Proof.
  intros HJ.
  assert (HR : should_exclude Readmes.EXCLUDE_PATTERNS p = false).
  { unfold should_exclude in HJ |- *.
    change Jekyll.EXCLUDE_PATTERNS
      with (Readmes.EXCLUDE_PATTERNS
            ++ [Prefix (lit "_site/"); Prefix (lit ".sass-cache/");
                Prefix (lit ".jekyll-cache/"); Prefix (lit "vendor/")]) in HJ.
    rewrite existsb_app in HJ. apply orb_false_iff in HJ. tauto. }
  unfold Readmes.get_repo_changes, Jekyll.get_repo_changes, get_repo_changes.
  rewrite !loops_as_visits. apply visits_agree; auto.
Qed.

Lemma scripts_agree_on_tracked_paths_witness :
  dict_get (lit "src/a.py") (Readmes.get_repo_changes [commit_new; commit_old])
  = dict_get (lit "src/a.py") (Jekyll.get_repo_changes [commit_new; commit_old]).
Proof.
  apply (@scripts_agree_on_tracked_paths [commit_new; commit_old]
           (lit "src/a.py")).
  reflexivity.
Defined.
